(** * On-demand derivative image cache of the diary media middleware

    A shallow embedding of the [/uploads] middleware registered by
    [registerRoutes] in the server's routes file, and the properties of
    its derivative cache: pass-through test, derivative key, quality
    ladder, fallback on failure, cache contents.

    The middleware talks to outside parties, which are modelled by
    their interface only:
    - the file system ([fs.existsSync], [fs.writeFileSync]) is a finite
      map from paths to nodes;
    - [sharp] is a pair of functions, one for [metadata()] and one for
      [resize(..).toFormat(..).toBuffer()], both of which may fail;
    - [res.sendFile] answers with the bytes of a file and a content type
      looked up from its extension;
    - the static layer [express.static(uploadsDir)] that takes over after
      [next()] is a function from the disk and the request path to a
      reply. *)

From Stdlib Require Import ZArith Ascii String List Lia Bool.
From stdpp Require Import base strings pretty gmap list.

Local Open Scope Z_scope.

(** ** Characters of a string *)

Module Text.

Fixpoint has_char (c : ascii) (s : string) : bool :=
  match s with
  | EmptyString => false
  | String c' s' => Ascii.eqb c' c || has_char c s'
  end.

(** A decimal digit or a minus sign. *)
Definition numeric (c : ascii) : bool :=
  match c with
  | "0" | "1" | "2" | "3" | "4" | "5" | "6" | "7" | "8" | "9" | "-" => true
  | _ => false
  end%char.

(** A character that occurs in no rendering of a number or of [null]. *)
Definition foreign (c : ascii) : bool :=
  negb (numeric c) && negb (has_char c "NaN") && negb (has_char c "null").

End Text.

(** ** JavaScript values used by the middleware *)

Module Js.

(** A JavaScript number as far as the middleware can obtain one: the
    result of [parseInt] is either [NaN] or an integer.  Integers are
    kept exact; JavaScript rounds them to a double above 2^53 and
    prints them in exponent notation from 10^21 on, which only matters
    for the text of a derivative key with such a parameter. *)
Inductive num :=
| NaN
| Num (z : Z).

Global Instance num_eq_dec : EqDecision num.
Proof. solve_decision. Defined.

(** [x === y] on numbers: [NaN] equals nothing. *)
Definition strict_eq (x y : num) : bool :=
  match x, y with
  | Num a, Num b => a =? b
  | _, _ => false
  end.

(** [x > y] on numbers: any comparison with [NaN] is false. *)
Definition gt (x y : num) : bool :=
  match x, y with
  | Num a, Num b => b <? a
  | _, _ => false
  end.

Definition sub (x y : num) : num :=
  match x, y with
  | Num a, Num b => Num (a - b)
  | _, _ => NaN
  end.

Definition mul (x y : num) : num :=
  match x, y with
  | Num a, Num b => Num (a * b)
  | _, _ => NaN
  end.

(** [Math.max(x, y)]: [NaN] if either argument is. *)
Definition max (x y : num) : num :=
  match x, y with
  | Num a, Num b => Num (Z.max a b)
  | _, _ => NaN
  end.

(** A value that is a number or [null] (the middleware's [width] and
    [maxSize]). *)
Definition nullable := option num.

(** Truthiness: [null], [NaN] and [0] are falsy. *)
Definition truthy (v : nullable) : bool :=
  match v with
  | Some (Num z) => negb (z =? 0)
  | _ => false
  end.

(** [ToNumber]: [null] counts as 0 in arithmetic. *)
Definition to_number (v : nullable) : num :=
  match v with
  | None => Num 0
  | Some n => n
  end.

(** Text of a number inside a template literal. *)
Definition num_to_string (n : num) : string :=
  match n with
  | NaN => "NaN"
  | Num z => pretty z
  end.

Definition nullable_to_string (v : nullable) : string :=
  match v with
  | None => "null"
  | Some n => num_to_string n
  end.

(** *** [parseInt(s)] without a radix

    Leading white space is skipped, one sign is read, a [0x] prefix
    selects base 16, then the longest run of digits is read; no digit
    at all gives [NaN].  Text after the digits is ignored.  Strings
    are byte strings here, so only the ASCII white space is known. *)

Definition is_white (c : ascii) : bool :=
  match c with
  | "009" | "010" | "011" | "012" | "013" | " " => true
  | _ => false
  end%char.

Fixpoint skip_white (s : string) : string :=
  match s with
  | String c s' => if is_white c then skip_white s' else s
  | EmptyString => s
  end.

(** Value of a digit character in base 36. *)
Definition digit_value (c : ascii) : Z :=
  let n := Z.of_N (N_of_ascii c) in
  if (48 <=? n) && (n <=? 57) then n - 48
  else if (97 <=? n) && (n <=? 122) then n - 87
  else if (65 <=? n) && (n <=? 90) then n - 55
  else 36.

Definition is_digit (radix : Z) (c : ascii) : bool :=
  digit_value c <? radix.

(** Value of the longest run of digits at the start of [s]. *)
Fixpoint read_digits (radix acc : Z) (s : string) : Z :=
  match s with
  | String c s' =>
      if is_digit radix c
      then read_digits radix (acc * radix + digit_value c) s'
      else acc
  | EmptyString => acc
  end.

Definition starts_with_digit (radix : Z) (s : string) : bool :=
  match s with
  | String c _ => is_digit radix c
  | EmptyString => false
  end.

Definition parseInt (input : string) : num :=
  let s := skip_white input in
  let '(sign, s) :=
    match s with
    | String "-" s' => (-1, s')
    | String "+" s' => (1, s')
    | _ => (1, s)
    end in
  let '(radix, s) :=
    match s with
    | String "0" (String "x" s') => (16, s')
    | String "0" (String "X" s') => (16, s')
    | _ => (10, s)
    end in
  if starts_with_digit radix s
  then Num (sign * read_digits radix 0 s)
  else NaN.

(** A query parameter is a string or missing; [req.query.x ? parseInt(req.query.x) : d]
    takes the default for a missing or empty value. *)
Definition param_truthy (p : option string) : bool :=
  match p with
  | Some (String _ _) => true
  | _ => false
  end.

End Js.

(** ** [path] functions, as on POSIX *)

Module Path.

(** An absolute, normalised path: its components from the root. *)
Definition t := list string.

Definition has_slash (s : string) : bool := Text.has_char "/" s.

Definition is_slash (c : ascii) : bool := Ascii.eqb c "/".

(** The pieces of a string between slashes. *)
Fixpoint segments (s : string) : list string :=
  match s with
  | EmptyString => [EmptyString]
  | String c s' =>
      if is_slash c then EmptyString :: segments s'
      else match segments s' with
           | seg :: rest => String c seg :: rest
           | [] => [String c EmptyString]
           end
  end.

Definition nonempty (s : string) : bool :=
  match s with
  | EmptyString => false
  | String _ _ => true
  end.

(** [path.basename(p)]: the last component, trailing slashes ignored;
    empty when [p] has no component. *)
Definition basename (p : string) : string :=
  List.last (List.filter nonempty (segments p)) EmptyString.

(** One step of normalisation. *)
Definition enter (dir : t) (seg : string) : t :=
  if decide (seg = EmptyString) then dir
  else if decide (seg = ".") then dir
  else if decide (seg = "..") then removelast dir
  else dir ++ [seg].

(** [path.join(dir, rel)] for a normalised absolute [dir]. *)
Definition join (dir : t) (rel : string) : t :=
  fold_left enter (segments rel) dir.

(** Cut a string at its last dot. *)
Fixpoint cut_last_dot (s : string) : option (string * string) :=
  match s with
  | EmptyString => None
  | String c s' =>
      match cut_last_dot s' with
      | Some (a, b) => Some (String c a, b)
      | None => if Ascii.eqb c "." then Some (EmptyString, s') else None
      end
  end.

(** [name] and [ext] of [path.parse]: the extension starts at the last
    dot of the base, unless that dot is the first character of the
    base or the base is [..]. *)
Definition split_ext (base : string) : string * string :=
  match cut_last_dot base with
  | None => (base, EmptyString)
  | Some (pre, post) =>
      if bool_decide (pre = EmptyString) || bool_decide (base = "..")
      then (base, EmptyString)
      else (pre, String "." post)
  end.

(** The shapes [split_ext] gives to name and extension. *)
Inductive ext_shape (s : string) : string -> string -> Prop :=
| shape_no_dot :
    Text.has_char "." s = false -> ext_shape s s EmptyString
| shape_hidden post :
    s = String "." post -> Text.has_char "." post = false -> ext_shape s s EmptyString
| shape_dots :
    s = ".." -> ext_shape s s EmptyString
| shape_ext pre post :
    s = pre +:+ String "." post -> pre <> EmptyString -> Text.has_char "." post = false ->
    ext_shape s pre (String "." post).

Definition parse_name (p : string) : string := fst (split_ext (basename p)).
Definition parse_ext (p : string) : string := snd (split_ext (basename p)).

End Path.

(** ** Regular expressions of the classifier *)

Module Regex.

Definition lower (c : ascii) : ascii :=
  let n := N_of_ascii c in
  if (65 <=? n)%N && (n <=? 90)%N then ascii_of_N (n + 32) else c.

Fixpoint to_lower (s : string) : string :=
  match s with
  | EmptyString => EmptyString
  | String c s' => String (lower c) (to_lower s')
  end.

(** [suf] is the end of [s]. *)
Fixpoint ends_with (suf s : string) : bool :=
  bool_decide (s = suf) ||
  match s with
  | EmptyString => false
  | String _ s' => ends_with suf s'
  end.

(** [/\.(e1|e2|...)$/i.test(s)] for lower-case alternatives. *)
Definition ext_test (exts : list string) (s : string) : bool :=
  existsb (fun e => ends_with (String "." e) (to_lower s)) exts.

End Regex.

(** ** The host: disk, sharp, and the layers around the middleware *)

Definition Buffer := list Byte.byte.

Definition byte_length (b : Buffer) : Js.num := Js.Num (Z.of_nat (length b)).

(** What a path leads to. *)
Inductive node :=
| File (content : Buffer)
| Dir.

(** A reply as the client sees it. *)
Inductive reply :=
| Served (content_type : string) (body : Buffer)
| Failed.

(** Everything the middleware is given from outside:
    - [cwd]: [process.cwd()], absolute and normalised;
    - [sharp_metadata b]: [metadata().format] of an input with bytes [b],
      [None] when sharp rejects the input;
    - [sharp_toBuffer b resize format quality]: the bytes produced by
      [sharp(..)[.resize(resize)].toFormat(format, {quality}).toBuffer()]
      on an input with bytes [b], [None] when any of these calls fails;
    - [mime_lookup ext]: the content type that [res.sendFile] derives from
      a file extension (lower case, without the dot);
    - [express_static d p]: what the static layer registered after the
      middleware replies to a request for path [p] on disk [d]. *)
Class Host := {
  cwd : Path.t;
  sharp_metadata : Buffer -> option string;
  sharp_toBuffer : Buffer -> option Z -> string -> Js.num -> option Buffer;
  mime_lookup : string -> string;
  express_static : gmap Path.t node -> string -> reply;
}.

(** An inbound request below the [/uploads] mount point: [req.path] and
    the three query parameters the middleware looks at, each given at
    most once and as plain text (the source reads them [as string]). *)
Record request := {
  req_path : string;
  query_w : option string;
  query_q : option string;
  query_maxSize : option string;
}.

(** What the middleware does with the response object. *)
Inductive response :=
| Next
| SendFile (p : Path.t)
| Send (content_type : string) (body : Buffer).

(** Exceptions that can be raised inside the [try] block. *)
Inductive exn :=
| DecodeError
| TransformError
| StorageError.

(** Calls made to the outside, with their results. *)
Inductive event :=
| ExistsSync (p : Path.t) (found : bool)
| SharpMetadata (p : Path.t) (format : option string)
| SharpToBuffer (p : Path.t) (resize : option Z) (format : string)
    (quality : Js.num) (out : option Buffer)
| WriteFileSync (p : Path.t) (data : Buffer) (ok : bool)
| ConsoleError (e : exn).

(** The state a request runs in: the disk, whether writes to it
    currently succeed, and the calls made so far. *)
Record world := {
  disk : gmap Path.t node;
  writable : bool;
  trace : list event;
}.

Definition log (e : event) (w : world) : world :=
  {| disk := disk w; writable := writable w; trace := trace w ++ [e] |}.

Definition store (p : Path.t) (data : Buffer) (w : world) : world :=
  {| disk := <[p := File data]> (disk w); writable := writable w; trace := trace w |}.

(** *** A small monad for state, exceptions and non-termination *)

Inductive outcome (A : Type) :=
| Ok (a : A)
| Throw (e : exn)
| Diverge.
Arguments Ok {A} a.
Arguments Throw {A} e.
Arguments Diverge {A}.

Definition M (A : Type) : Type := world -> outcome A * world.

Definition ret {A} (a : A) : M A := fun w => (Ok a, w).

Definition bind {A B} (m : M A) (k : A -> M B) : M B :=
  fun w =>
    match m w with
    | (Ok a, w') => k a w'
    | (Throw e, w') => (Throw e, w')
    | (Diverge, w') => (Diverge, w')
    end.

Definition diverge {A} : M A := fun w => (Diverge, w).

Definition emit (e : event) : M unit := fun w => (Ok tt, log e w).

(** [try { body } catch (e) { handler e }] *)
Definition try_catch {A} (body : M A) (handler : exn -> M A) : M A :=
  fun w =>
    match body w with
    | (Throw e, w') => handler e w'
    | r => r
    end.

Notation "'let*' x ':=' m 'in' k" := (bind m (fun x => k))
  (at level 10, x name, m at level 100, k at level 200).

(** ** The middleware *)

Section Middleware.

Context `{Host}.

(** [uploadsDir] and [resizedCacheDir] *)
Definition uploadsDir : Path.t := cwd ++ ["uploads"].
Definition resizedCacheDir : Path.t := cwd ++ ["uploads"; ".cache"].

(** *** Calls to the outside *)

Definition existsSync (p : Path.t) : M bool :=
  fun w =>
    let found := bool_decide (is_Some (disk w !! p)) in
    (Ok found, log (ExistsSync p found) w).

(** What sharp obtains from the node at its input path: the format
    reported by [metadata()], and the encoded output. *)
Definition decode_node (n : option node) : option string :=
  match n with
  | Some (File b) => sharp_metadata b
  | _ => None
  end.

Definition encode_node (n : option node) (resize : option Z) (format : string)
    (quality : Js.num) : option Buffer :=
  match n with
  | Some (File b) => sharp_toBuffer b resize format quality
  | _ => None
  end.

(** [await sharp(p).metadata()], keeping the format. *)
Definition metadata (p : Path.t) : M string :=
  fun w =>
    let r := decode_node (disk w !! p) in
    (match r with Some f => Ok f | None => Throw DecodeError end,
     log (SharpMetadata p r) w).

(** [await sharpInstance.toFormat(format, {quality}).toBuffer()] on an
    instance for path [p], resized to [resize] if given. *)
Definition toBuffer (p : Path.t) (resize : option Z) (format : string)
    (quality : Js.num) : M Buffer :=
  fun w =>
    let r := encode_node (disk w !! p) resize format quality in
    (match r with Some b => Ok b | None => Throw TransformError end,
     log (SharpToBuffer p resize format quality r) w).

(** [fs.writeFileSync(p, data)] *)
Definition writeFileSync (p : Path.t) (data : Buffer) : M unit :=
  fun w =>
    if writable w
    then (Ok tt, log (WriteFileSync p data true) (store p data w))
    else (Throw StorageError, log (WriteFileSync p data false) w).

(** *** Classification and parameters *)

Definition isVideo (filename : string) : bool :=
  Regex.ext_test ["mp4"; "webm"; "mov"; "m4v"; "3gp"; "mkv"] filename.

Definition isImage (filename : string) : bool :=
  Regex.ext_test ["jpg"; "jpeg"; "png"; "gif"; "webp"; "heic"; "heif"] filename.

(** [req.query.x ? parseInt(req.query.x) : null] *)
Definition int_param (p : option string) : Js.nullable :=
  match p with
  | Some s => if Js.param_truthy p then Some (Js.parseInt s) else None
  | None => None
  end.

Definition width_of (req : request) : Js.nullable := int_param (query_w req).

Definition quality_of (req : request) : Js.num :=
  match int_param (query_q req) with
  | Some q => q
  | None => Js.Num 85
  end.

Definition maxSize_of (req : request) : Js.nullable := int_param (query_maxSize req).

(** The test that sends a request straight to [next()]. *)
Definition skip (filename : string) (width : Js.nullable) (quality : Js.num)
    (maxSize : Js.nullable) : bool :=
  isVideo filename || negb (isImage filename) ||
  (negb (Js.truthy width) && negb (Js.truthy maxSize) &&
   Js.strict_eq quality (Js.Num 85)).

(** *** Derivative key *)

Definition cacheKey (filename : string) (width : Js.nullable) (quality : Js.num)
    (maxSize : Js.nullable) : string :=
  Path.parse_name filename +:+ "-w" +:+ Js.nullable_to_string width +:+
  "-q" +:+ Js.num_to_string quality +:+
  "-m" +:+ Js.nullable_to_string maxSize +:+ Path.parse_ext filename.

(** *** Output codec *)

Definition outputFormat (format : string) : string :=
  if bool_decide (format = "jpeg") || bool_decide (format = "jpg") then "jpeg"
  else if bool_decide (format = "png") then "png"
  else if bool_decide (format = "webp") then "webp"
  else "jpeg".

(** The argument of [res.type]. *)
Definition content_type (format : string) : string :=
  "image/" +:+ (if bool_decide (format = "jpeg") then "jpeg" else format).

(** [if (width) sharpInstance = sharpInstance.resize(width)] *)
Definition resize_of (width : Js.nullable) : option Z :=
  match width with
  | Some (Js.Num z) => if Js.truthy width then Some z else None
  | _ => None
  end.

(** *** Quality ladder *)

Record ladder := {
  finalBuffer : Buffer;
  adjustedQuality : Js.num;
  attempts : Z;
}.

Definition over_budget (buf : Buffer) (maxSize : Js.nullable) : bool :=
  Js.gt (byte_length buf) (Js.mul (Js.to_number maxSize) (Js.Num 1024)).

(** The condition of the [while] loop. *)
Definition continue (maxSize : Js.nullable) (st : ladder) : bool :=
  over_budget (finalBuffer st) maxSize &&
  Js.gt (adjustedQuality st) (Js.Num 10) &&
  (attempts st <? 5).

(** The [while] loop; [fuel] bounds the number of iterations of the
    model, and running out of it is [Diverge]. *)
Fixpoint reencode (fuel : nat) (filePath : Path.t) (resize : option Z)
    (format : string) (maxSize : Js.nullable) (st : ladder) : M ladder :=
  if continue maxSize st then
    match fuel with
    | O => diverge
    | S fuel' =>
        let quality := Js.max (Js.Num 10) (Js.sub (adjustedQuality st) (Js.Num 15)) in
        let* buf := toBuffer filePath resize format quality in
        reencode fuel' filePath resize format maxSize
          {| finalBuffer := buf; adjustedQuality := quality;
             attempts := attempts st + 1 |}
    end
  else ret st.

(** *** The [try] block *)

Definition process (filename : string) (filePath : Path.t) (width : Js.nullable)
    (quality : Js.num) (maxSize : Js.nullable) : M response :=
  let cachePath := Path.join resizedCacheDir (cacheKey filename width quality maxSize) in
  let* hit := existsSync cachePath in
  if hit then ret (SendFile cachePath)
  else
    let* format := metadata filePath in
    let resize := resize_of width in
    let fmt := outputFormat format in
    let* resizedImgBuffer := toBuffer filePath resize fmt quality in
    if Js.truthy maxSize && over_budget resizedImgBuffer maxSize then
      let* st := reencode 5 filePath resize fmt maxSize
              {| finalBuffer := resizedImgBuffer; adjustedQuality := quality;
                 attempts := 0 |} in
      let* _ := writeFileSync cachePath (finalBuffer st) in
      ret (Send (content_type fmt) (finalBuffer st))
    else
      let* _ := writeFileSync cachePath resizedImgBuffer in
      ret (Send (content_type fmt) resizedImgBuffer).

(** *** The handler registered with [app.use('/uploads', ...)] *)

Definition middleware (req : request) : M response :=
  let filename := Path.basename (req_path req) in
  let filePath := Path.join uploadsDir filename in
  let* present := existsSync filePath in
  if negb present then ret Next
  else
    let width := width_of req in
    let quality := quality_of req in
    let maxSize := maxSize_of req in
    if skip filename width quality maxSize then ret Next
    else
      try_catch (process filename filePath width quality maxSize)
        (fun e => let* _ := emit (ConsoleError e) in ret Next).

(** *** What the client receives *)

(** [res.sendFile(p)]: the bytes at [p], with the content type looked
    up from what follows the last dot of the file name (from the whole
    name if it has no dot), in lower case. *)
Definition sendFile_type (p : Path.t) : string :=
  let name := List.last p EmptyString in
  match Path.cut_last_dot name with
  | Some (_, ext) => mime_lookup (Regex.to_lower ext)
  | None => mime_lookup (Regex.to_lower name)
  end.

Definition sendFile (d : gmap Path.t node) (p : Path.t) : reply :=
  match d !! p with
  | Some (File b) => Served (sendFile_type p) b
  | _ => Failed
  end.

(** The middleware followed by the static layer. *)
Definition serve (req : request) (w : world) : reply * world :=
  match middleware req w with
  | (Ok Next, w') => (express_static (disk w') (req_path req), w')
  | (Ok (SendFile p), w') => (sendFile (disk w') p, w')
  | (Ok (Send ct body), w') => (Served ct body, w')
  | (_, w') => (Failed, w')
  end.


(** *** Vocabulary for the properties *)

Definition filename_of (req : request) : string := Path.basename (req_path req).
Definition filePath_of (req : request) : Path.t := Path.join uploadsDir (filename_of req).
Definition key_of (req : request) : string :=
  cacheKey (filename_of req) (width_of req) (quality_of req) (maxSize_of req).
Definition cachePath_of (req : request) : Path.t := Path.join resizedCacheDir (key_of req).

(** The request gets past the test that sends it to [next()]. *)
Definition processed (req : request) : bool :=
  negb (skip (filename_of req) (width_of req) (quality_of req) (maxSize_of req)).

(** The calls a request makes when it is handled in world [w]. *)
Definition calls (req : request) (w : world) : list event :=
  drop (length (trace w)) (trace (snd (middleware req w))).

(** The encodes among some calls: quality asked for and result. *)
Definition encodes (t : list event) : list (Js.num * option Buffer) :=
  omap (fun e => match e with
                 | SharpToBuffer _ _ _ q r => Some (q, r)
                 | _ => None
                 end) t.

(** One step down the quality ladder. *)
Definition lower (q : Js.num) : Js.num := Js.max (Js.Num 10) (Js.sub q (Js.Num 15)).

(** [p] is a file name directly inside [dir]. *)
Definition child_of (dir p : Path.t) : Prop :=
  exists name, p = dir ++ [name] /\ name <> EmptyString /\ name <> "." /\ name <> ".." /\
               Path.has_slash name = false.

(** The bytes a transform of the current original would give for a
    request: what the middleware sends when it handles the request on
    this disk with no cache entry under the request's key. *)
Definition fresh (d : gmap Path.t node) (req : request) : option Buffer :=
  match middleware req {| disk := delete (cachePath_of req) d;
                          writable := true; trace := [] |} with
  | (Ok (Send _ body), _) => Some body
  | _ => None
  end.





(** The part of a key before the extension. *)
Definition key_stem (name W Q M : string) : string :=
  name +:+ "-w" +:+ W +:+ "-q" +:+ Q +:+ "-m" +:+ M.


(** *** The quality ladder as the attempts show it *)

(** [n] qualities starting at [q], each one step below the one before. *)
Fixpoint ladder_from (q : Js.num) (n : nat) : list Js.num :=
  match n with
  | O => []
  | S n' => q :: ladder_from (lower q) n'
  end.

(** [descends maxSize k atts]: [atts] are the attempts from the one
    numbered [k] on (the first encode is number 0), each with its
    quality and output.  An attempt is followed by another one, a step
    lower, exactly when its output is over budget, its quality is
    above 10 and fewer than 5 re-encodes were made. *)
Inductive descends (maxSize : Js.nullable) : Z -> list (Js.num * Buffer) -> Prop :=
| descends_last k q b :
    over_budget b maxSize = false \/ Js.gt q (Js.Num 10) = false \/ k = 5 ->
    descends maxSize k [(q, b)]
| descends_more k q b b' rest :
    over_budget b maxSize = true -> Js.gt q (Js.Num 10) = true -> k < 5 ->
    descends maxSize (k + 1) ((lower q, b') :: rest) ->
    descends maxSize k ((q, b) :: (lower q, b') :: rest).

(** The last encode of a request and the number of re-encodes. *)
Definition final_attempt (req : request) (w : world) : option (Js.num * option Buffer) :=
  last (encodes (calls req w)).

Definition reencodes (req : request) (w : world) : Z :=
  Z.of_nat (length (encodes (calls req w))) - 1.


(** *** The runs of the ladder and of the middleware as relations *)

(** World [w] after some more calls. *)
Definition logs (l : list event) (w : world) : world :=
  {| disk := disk w; writable := writable w; trace := trace w ++ l |}.

(** World [w] after a request that made calls [l] and wrote [data]
    (if any) at [p]. *)
Definition after (p : Path.t) (l : list event) (data : option Buffer) (w : world) : world :=
  match data with
  | Some b => logs l (store p b w)
  | None => logs l w
  end.

(** [ladder_chain enc maxSize st tries o]: from loop state [st], with
    [enc] the encoder at each quality, the loop makes the encodes
    [tries] and ends in [o]. *)
Inductive ladder_chain (enc : Js.num -> option Buffer) (maxSize : Js.nullable) :
    ladder -> list (Js.num * option Buffer) -> outcome ladder -> Prop :=
| chain_stop st :
    continue maxSize st = false ->
    ladder_chain enc maxSize st [] (Ok st)
| chain_fail st :
    continue maxSize st = true ->
    enc (lower (adjustedQuality st)) = None ->
    ladder_chain enc maxSize st [(lower (adjustedQuality st), None)] (Throw TransformError)
| chain_step st buf tries o :
    continue maxSize st = true ->
    enc (lower (adjustedQuality st)) = Some buf ->
    ladder_chain enc maxSize
      {| finalBuffer := buf; adjustedQuality := lower (adjustedQuality st);
         attempts := attempts st + 1 |} tries o ->
    ladder_chain enc maxSize st ((lower (adjustedQuality st), Some buf) :: tries) o.

(** The ladder as entered by the [try] block: only when [maxSize] is
    set and the first output is over budget. *)
Definition ladder_run (enc : Js.num -> option Buffer) (maxSize : Js.nullable)
    (buf : Buffer) (quality : Js.num)
    (tries : list (Js.num * option Buffer)) (o : outcome ladder) : Prop :=
  let st := {| finalBuffer := buf; adjustedQuality := quality; attempts := 0 |} in
  if Js.truthy maxSize && over_budget buf maxSize
  then ladder_chain enc maxSize st tries o
  else tries = [] /\ o = Ok st.

(** [steps req file cached wr o new data]: with [file] the node at the
    original's path, [cached] telling whether the cache path exists
    and [wr] whether writes succeed, the middleware ends in [o] after
    the calls [new], having written [data] to the cache path. *)
Inductive steps (req : request) (file : option node) (cached wr : bool) :
    outcome response -> list event -> option Buffer -> Prop :=
| steps_absent :
    file = None ->
    steps req file cached wr (Ok Next) [ExistsSync (filePath_of req) false] None
| steps_skip :
    is_Some file -> processed req = false ->
    steps req file cached wr (Ok Next) [ExistsSync (filePath_of req) true] None
| steps_hit :
    is_Some file -> processed req = true -> cached = true ->
    steps req file cached wr (Ok (SendFile (cachePath_of req)))
      [ExistsSync (filePath_of req) true; ExistsSync (cachePath_of req) true] None
| steps_undecodable :
    is_Some file -> processed req = true -> cached = false ->
    decode_node file = None ->
    steps req file cached wr (Ok Next)
      [ExistsSync (filePath_of req) true; ExistsSync (cachePath_of req) false;
       SharpMetadata (filePath_of req) None; ConsoleError DecodeError] None
| steps_encode_fails format :
    is_Some file -> processed req = true -> cached = false ->
    decode_node file = Some format ->
    encode_node file (resize_of (width_of req)) (outputFormat format) (quality_of req) = None ->
    steps req file cached wr (Ok Next)
      [ExistsSync (filePath_of req) true; ExistsSync (cachePath_of req) false;
       SharpMetadata (filePath_of req) (Some format);
       SharpToBuffer (filePath_of req) (resize_of (width_of req)) (outputFormat format)
         (quality_of req) None;
       ConsoleError TransformError] None
| steps_ladder_fails format buf tries e :
    is_Some file -> processed req = true -> cached = false ->
    decode_node file = Some format ->
    encode_node file (resize_of (width_of req)) (outputFormat format) (quality_of req) = Some buf ->
    ladder_run (encode_node file (resize_of (width_of req)) (outputFormat format))
      (maxSize_of req) buf (quality_of req) tries (Throw e) ->
    steps req file cached wr (Ok Next)
      ([ExistsSync (filePath_of req) true; ExistsSync (cachePath_of req) false;
        SharpMetadata (filePath_of req) (Some format)] ++
       map (fun t => SharpToBuffer (filePath_of req) (resize_of (width_of req))
                       (outputFormat format) t.1 t.2)
           ((quality_of req, Some buf) :: tries) ++
       [ConsoleError e]) None
| steps_write_fails format buf tries st :
    is_Some file -> processed req = true -> cached = false ->
    decode_node file = Some format ->
    encode_node file (resize_of (width_of req)) (outputFormat format) (quality_of req) = Some buf ->
    ladder_run (encode_node file (resize_of (width_of req)) (outputFormat format))
      (maxSize_of req) buf (quality_of req) tries (Ok st) ->
    wr = false ->
    steps req file cached wr (Ok Next)
      ([ExistsSync (filePath_of req) true; ExistsSync (cachePath_of req) false;
        SharpMetadata (filePath_of req) (Some format)] ++
       map (fun t => SharpToBuffer (filePath_of req) (resize_of (width_of req))
                       (outputFormat format) t.1 t.2)
           ((quality_of req, Some buf) :: tries) ++
       [WriteFileSync (cachePath_of req) (finalBuffer st) false;
        ConsoleError StorageError]) None
| steps_sent format buf tries st :
    is_Some file -> processed req = true -> cached = false ->
    decode_node file = Some format ->
    encode_node file (resize_of (width_of req)) (outputFormat format) (quality_of req) = Some buf ->
    ladder_run (encode_node file (resize_of (width_of req)) (outputFormat format))
      (maxSize_of req) buf (quality_of req) tries (Ok st) ->
    wr = true ->
    steps req file cached wr
      (Ok (Send (content_type (outputFormat format)) (finalBuffer st)))
      ([ExistsSync (filePath_of req) true; ExistsSync (cachePath_of req) false;
        SharpMetadata (filePath_of req) (Some format)] ++
       map (fun t => SharpToBuffer (filePath_of req) (resize_of (width_of req))
                       (outputFormat format) t.1 t.2)
           ((quality_of req, Some buf) :: tries) ++
       [WriteFileSync (cachePath_of req) (finalBuffer st) true])
      (Some (finalBuffer st)).


(** A call that stays where the request may go: the path checked for
    existence is the one resolved from the request or a cache entry,
    sharp is given a file name directly inside the uploads directory,
    and writes go to a cache entry. *)
Definition in_bounds (req : request) (e : event) : Prop :=
  match e with
  | ExistsSync p _ => p = filePath_of req \/ child_of resizedCacheDir p
  | SharpMetadata p _ | SharpToBuffer p _ _ _ _ =>
      p = uploadsDir ++ [filename_of req] /\ child_of uploadsDir p
  | WriteFileSync p _ _ => child_of resizedCacheDir p
  | ConsoleError _ => True
  end.

(** *** Properties as the specification words them *)

(** The first encode of a request gave [b0]. *)
Definition first_encode (req : request) (w : world) (b0 : Buffer) : Prop :=
  head (encodes (calls req w)) = Some (quality_of req, Some b0).

(** Size bound: a derivative sent under a size limit, after a first
    encode over budget, fits the limit, or the quality is at the floor
    of 10 and 5 re-encodes were made. *)
Definition size_bound_stated (req : request) (w : world) : Prop :=
  forall ct body w' b0,
    middleware req w = (Ok (Send ct body), w') ->
    Js.truthy (maxSize_of req) = true ->
    first_encode req w b0 -> over_budget b0 (maxSize_of req) = true ->
    over_budget body (maxSize_of req) = false \/
    ((exists r, final_attempt req w = Some (Js.Num 10, r)) /\ reencodes req w = 5).

(** Ladder stop: under a size limit, after a first encode over budget,
    the ladder stops only when the output fits or 5 re-encodes were
    made. *)
Definition ladder_stop_stated (req : request) (w : world) : Prop :=
  forall ct body w' b0,
    middleware req w = (Ok (Send ct body), w') ->
    Js.truthy (maxSize_of req) = true ->
    first_encode req w b0 -> over_budget b0 (maxSize_of req) = true ->
    over_budget body (maxSize_of req) = false \/ reencodes req w = 5.




(** Basename resolution: the path whose existence is checked is a file
    name directly inside the uploads directory. *)
Definition inside_uploads_stated (req : request) : Prop :=
  child_of uploadsDir (filePath_of req).

End Middleware.

(** ** A host to run the middleware on

    A stand-in for sharp on which requests can be evaluated: an input is
    an image when its first byte names a format, and the encoder output
    is one tag byte for the codec followed by [out_size n q] zero bytes
    for an input of [n] bytes encoded at quality [q].  As sharp does, it
    refuses a width that is not positive and a quality outside 1..100. *)

Module Lab.

Definition format_of_tag (b : Byte.byte) : option string :=
  match b with
  | Byte.x4a => Some "jpeg"   (* J *)
  | Byte.x50 => Some "png"    (* P *)
  | Byte.x57 => Some "webp"   (* W *)
  | Byte.x47 => Some "gif"    (* G *)
  | Byte.x48 => Some "heif"   (* H *)
  | _ => None
  end.

Definition tag_of_format (f : string) : Byte.byte :=
  if bool_decide (f = "jpeg") then Byte.x4a
  else if bool_decide (f = "png") then Byte.x50
  else Byte.x57.

Definition lab_metadata (b : Buffer) : option string :=
  match b with
  | t :: _ => format_of_tag t
  | [] => None
  end.

Definition lab_toBuffer (out_size : nat -> Z -> nat) (b : Buffer)
    (resize : option Z) (format : string) (quality : Js.num) : option Buffer :=
  match lab_metadata b, quality with
  | Some _, Js.Num q =>
      if (1 <=? q) && (q <=? 100) &&
         match resize with Some x => 0 <? x | None => true end
      then Some (tag_of_format format :: repeat Byte.x00 (out_size (length b) q))
      else None
  | _, _ => None
  end.

Definition lab_mime (ext : string) : string :=
  if bool_decide (ext = "jpg") || bool_decide (ext = "jpeg") then "image/jpeg"
  else if bool_decide (ext = "png") then "image/png"
  else if bool_decide (ext = "gif") then "image/gif"
  else if bool_decide (ext = "webp") then "image/webp"
  else "application/octet-stream".

Definition lab_static (root : Path.t) (d : gmap Path.t node) (p : string) : reply :=
  match d !! Path.join root p with
  | Some (File b) => Served "application/octet-stream" b
  | _ => Failed
  end.

Definition host (out_size : nat -> Z -> nat) : Host := {|
  cwd := ["srv"; "diary"];
  sharp_metadata := lab_metadata;
  sharp_toBuffer := lab_toBuffer out_size;
  mime_lookup := lab_mime;
  express_static := lab_static ["srv"; "diary"; "uploads"];
|}.

(** An encoder whose output shrinks with the quality: 30 bytes per
    quality point. *)
Definition shrinking : Host := host (fun _ q => Z.to_nat (30 * q)).

(** An encoder whose output is 2000 bytes whatever the quality. *)
Definition stubborn : Host := host (fun _ _ => 2000%nat).

Definition photo : Buffer := [Byte.x4a; Byte.x01; Byte.x02; Byte.x03].
Definition anim : Buffer := [Byte.x47; Byte.x01; Byte.x02].
Definition notes : Buffer := [Byte.x68; Byte.x69].

(** A disk with three uploads and an empty cache directory;
    [notes.png] is a text file with an image extension. *)
Definition disk0 : gmap Path.t node :=
  <[["srv"; "diary"; "uploads"; "photo.jpg"] := File photo]>
  (<[["srv"; "diary"; "uploads"; "anim.gif"] := File anim]>
  (<[["srv"; "diary"; "uploads"; "notes.png"] := File notes]>
  (<[["srv"; "diary"; "uploads"; ".cache"] := Dir]>
  (<[["srv"; "diary"; "uploads"] := Dir]>
  (<[["srv"; "diary"] := Dir]>
  (<[["srv"] := Dir]> ∅)))))).

Definition world0 : world := {| disk := disk0; writable := true; trace := [] |}.

Definition get (path : string) (w q m : option string) : request :=
  {| req_path := path; query_w := w; query_q := q; query_maxSize := m |}.

Definition req_thumb : request := get "/photo.jpg" (Some "400") None (Some "1").
Definition req_limit : request := get "/photo.jpg" None None (Some "1").
Definition req_high : request := get "/photo.jpg" None (Some "100") (Some "1").
Definition req_low : request := get "/photo.jpg" None (Some "25") (Some "1").
Definition req_width : request := get "/photo.jpg" (Some "400") None None.
Definition req_width_alias : request := get "/albums/photo.jpg/" (Some "400px") (Some "85") None.
Definition req_gif : request := get "/anim.gif" (Some "100") None None.
Definition req_up : request := get "/.." None None None.

(** Output of the encoder that does not compress, and of the
    shrinking encoder at quality 25 and at quality 85. *)
Definition big : Buffer := Byte.x4a :: repeat Byte.x00 2000.
Definition small : Buffer := Byte.x4a :: repeat Byte.x00 750.


End Lab.

(** ** Start-up of the routes module

    The statements at the top of the routes file, run once when the
    module is loaded: each of the two directories is created, with its
    missing ancestors, unless something exists at its path. *)

Module Startup.




Section Run.

Context `{Host}.


End Run.

End Startup.

(** ** The upload route

    The configuration given to multer and the callback of
    [upload.single("file")] in the [/api/upload] route. *)

Module Upload.

Definition validVideoTypes : list string :=
  ["video/mp4"; "video/quicktime"; "video/x-m4v"; "video/webm"; "video/3gpp";
   "video/x-matroska"; "video/mov"].

Definition validImageTypes : list string :=
  ["image/jpeg"; "image/png"; "image/gif"; "image/heic"; "image/heif"].

Definition allowedTypes : list string := validImageTypes ++ validVideoTypes.

(** What the two multer hooks read of an incoming file part. *)
Record file := {
  originalname : string;
  mimetype : string;
}.

(** The errors the route's callback tells apart: a [multer.MulterError]
    with its code, or any other [Error] with its message. *)
Inductive error :=
| MulterError (code : string)
| Error (message : string).

(** [limits.fileSize] *)
Definition fileSize : Z := 50 * 1024 * 1024.

(** [fileFilter]: [cb(new Error(..))] is [inl], [cb(null, b)] is [inr b]. *)
Definition fileFilter (f : file) : error + bool :=
  if bool_decide (mimetype f ∈ allowedTypes)
  then inr true
  else inl (Error "Invalid file type. Please upload an image or video file.").

(** [path.extname] *)
Definition extname (p : string) : string := Path.parse_ext p.

(** The shape of an extension: nothing, or a dot and text without a dot. *)
Definition ext_like (e : string) : Prop :=
  e = EmptyString \/ exists post, e = String "." post /\ Text.has_char "." post = false.

(** [filename], with the values of [Date.now()] and of
    [Math.round(Math.random() * 1E9)] given. *)
Definition filename (now rnd : Z) (f : file) : string :=
  let uniqueSuffix := pretty now +:+ "-" +:+ pretty rnd in
  uniqueSuffix +:+ extname (originalname f).

(** The body of a reply: [{ message }] or [{ url }]. *)
Inductive json :=
| Message (message : string)
| Url (url : string).

Record answer := {
  status : Z;
  body : json;
}.

(** The callback given to [upload.single("file")]: [err] is the error
    multer ends with, if any, and [file] is [req.file.filename] when
    [req.file] is set. *)
Definition on_upload (err : option error) (file : option string) : answer :=
  match err with
  | Some (MulterError code) =>
      if bool_decide (code = "LIMIT_FILE_SIZE")
      then {| status := 400; body := Message "File is too large. Maximum size is 50MB" |}
      else {| status := 400; body := Message "Error uploading file" |}
  | Some (Error message) =>
      if bool_decide (message = "Invalid file type")
      then {| status := 400;
              body := Message "Invalid file type. Please upload an image or video file." |}
      else {| status := 500; body := Message "Server error while uploading file" |}
  | None =>
      match file with
      | None => {| status := 400; body := Message "No file uploaded" |}
      | Some name => {| status := 200; body := Url ("/uploads/" +:+ name) |}
      end
  end.

End Upload.

(** ** The media list of the editor page

    [onMediaUpload] and [onMediaRemove] of the editor, as they act on
    the form's [mediaUrls].  The value read with
    [form.getValues("mediaUrls") || []] is a list or missing. *)

Module Editor.

Definition or_empty (v : option (list string)) : list string := default [] v.

(** What one call of [onMediaUpload] keeps in its closure. *)
Record upload := {
  tempUrl : string;
  tempUrls : list string;
}.

(** How the request ends: the [load] event with a status and the [url]
    of the parsed response, or the [error] event. *)
Inductive xhr :=
| Loaded (status : Z) (url : string)
| Errored.

(** The start of [onMediaUpload]: the closure, and the value the form
    is given. *)
Definition start (temp : string) (v : option (list string)) : upload * list string :=
  let currentUrls := or_empty v in
  let tempUrls := currentUrls ++ [temp] in
  ({| tempUrl := temp; tempUrls := tempUrls |}, tempUrls).

(** [tempUrls.map(u => u === tempUrl ? url : u)] *)
Definition finalUrls_loaded (u : upload) (url : string) : list string :=
  map (fun x => if bool_decide (x = tempUrl u) then url else x) (tempUrls u).

(** [currentUrls.filter(url => url !== tempUrl)] in the [catch] block. *)
Definition finalUrls_failed (u : upload) (v : option (list string)) : list string :=
  filter (fun url => url <> tempUrl u) (or_empty v).

(** The value the form is given when the request ends, [v] being the
    form's value at that time. *)
Definition settle (u : upload) (r : xhr) (v : option (list string)) : list string :=
  match r with
  | Loaded status url =>
      if status =? 200 then finalUrls_loaded u url else finalUrls_failed u v
  | Errored => finalUrls_failed u v
  end.

(** [l.splice(index, 1)] on a copy of [l], for an integer [index]: a
    negative index counts from the end. *)
Definition splice1 (index : Z) (l : list string) : list string :=
  let len := Z.of_nat (length l) in
  let actualStart := if index <? 0 then Z.max (len + index) 0 else Z.min index len in
  take (Z.to_nat actualStart) l ++ drop (S (Z.to_nat actualStart)) l.

Definition onMediaRemove (index : Z) (v : option (list string)) : list string :=
  splice1 index (or_empty v).

End Editor.

(** ** The entry and comment routes

    The handlers of the [/api/entries] routes.  The storage layer and
    the two schemas are code outside this development: they are taken
    as they come, a storage method being any function of the stored
    data that returns or throws, and a schema any function that
    accepts a value, giving the parsed data, or refuses it with its
    issues. *)

Module Api.

(** A call that returns or throws. *)
Inductive result (A : Type) :=
| Returns (a : A)
| Throws.
Arguments Returns {A} a.
Arguments Throws {A}.

Section Routes.

Context {Entry InsertEntry Comment InsertComment Body Content Issues Db : Type}.

(** [storage], [insertEntrySchema.safeParse] and
    [insertCommentSchema.safeParse]; the argument of the latter is
    the object [{ entryId, content }]. *)
Record Backend := {
  getAllEntries : Db -> result (list Entry) * Db;
  getEntry : Js.num -> Db -> result (option Entry) * Db;
  createEntry : InsertEntry -> Db -> result Entry * Db;
  updateEntry : Js.num -> InsertEntry -> Db -> result (option Entry) * Db;
  deleteEntry : Js.num -> Db -> result bool * Db;
  getComments : Js.num -> Db -> result (list Comment) * Db;
  addComment : InsertComment -> Db -> result Comment * Db;
  deleteComment : Js.num -> Db -> result bool * Db;
  insertEntrySchema : Body -> Issues + InsertEntry;
  insertCommentSchema : Js.num -> Content -> Issues + InsertComment;
}.

(** What [res.json] or [res.send] is given. *)
Inductive payload :=
| Entries (entries : list Entry)
| AnEntry (entry : Entry)
| Comments (comments : list Comment)
| AComment (comment : Comment)
| Message (message : string)
| Invalid (message : string) (errors : Issues)
| Nothing.

Record reply := {
  status : Z;
  body : payload;
}.

Variable storage : Backend.

(** [GET /api/entries] *)
Definition get_entries (db : Db) : reply * Db :=
  match getAllEntries storage db with
  | (Returns entries, db') => ({| status := 200; body := Entries entries |}, db')
  | (Throws, db') => ({| status := 500; body := Message "Failed to fetch entries" |}, db')
  end.

(** [GET /api/entries/:id] *)
Definition get_entry (id : string) (db : Db) : reply * Db :=
  match getEntry storage (Js.parseInt id) db with
  | (Returns None, db') => ({| status := 404; body := Message "Entry not found" |}, db')
  | (Returns (Some entry), db') => ({| status := 200; body := AnEntry entry |}, db')
  | (Throws, db') => ({| status := 500; body := Message "Failed to fetch entry" |}, db')
  end.

(** [POST /api/entries] *)
Definition post_entry (b : Body) (db : Db) : reply * Db :=
  match insertEntrySchema storage b with
  | inl errors => ({| status := 400; body := Invalid "Invalid entry data" errors |}, db)
  | inr data =>
      match createEntry storage data db with
      | (Returns entry, db') => ({| status := 201; body := AnEntry entry |}, db')
      | (Throws, db') => ({| status := 500; body := Message "Failed to create entry" |}, db')
      end
  end.

(** [PUT /api/entries/:id] *)
Definition put_entry (id : string) (b : Body) (db : Db) : reply * Db :=
  match insertEntrySchema storage b with
  | inl errors => ({| status := 400; body := Invalid "Invalid entry data" errors |}, db)
  | inr data =>
      match updateEntry storage (Js.parseInt id) data db with
      | (Returns None, db') => ({| status := 404; body := Message "Entry not found" |}, db')
      | (Returns (Some entry), db') => ({| status := 200; body := AnEntry entry |}, db')
      | (Throws, db') => ({| status := 500; body := Message "Failed to update entry" |}, db')
      end
  end.

(** [DELETE /api/entries/:id] *)
Definition delete_entry (id : string) (db : Db) : reply * Db :=
  match deleteEntry storage (Js.parseInt id) db with
  | (Returns false, db') => ({| status := 404; body := Message "Entry not found" |}, db')
  | (Returns true, db') => ({| status := 204; body := Nothing |}, db')
  | (Throws, db') => ({| status := 500; body := Message "Failed to delete entry" |}, db')
  end.

(** [GET /api/entries/:id/comments] *)
Definition get_comments (id : string) (db : Db) : reply * Db :=
  match getComments storage (Js.parseInt id) db with
  | (Returns comments, db') => ({| status := 200; body := Comments comments |}, db')
  | (Throws, db') => ({| status := 500; body := Message "Failed to fetch comments" |}, db')
  end.

(** [POST /api/entries/:id/comments], [content] being [req.body.content] *)
Definition post_comment (id : string) (content : Content) (db : Db) : reply * Db :=
  match insertCommentSchema storage (Js.parseInt id) content with
  | inl errors => ({| status := 400; body := Invalid "Invalid comment data" errors |}, db)
  | inr data =>
      match addComment storage data db with
      | (Returns comment, db') => ({| status := 201; body := AComment comment |}, db')
      | (Throws, db') => ({| status := 500; body := Message "Failed to create comment" |}, db')
      end
  end.

(** [DELETE /api/entries/:id/comments/:commentId] *)
Definition delete_comment (id commentId : string) (db : Db) : reply * Db :=
  match deleteComment storage (Js.parseInt commentId) db with
  | (Returns false, db') => ({| status := 404; body := Message "Comment not found" |}, db')
  | (Returns true, db') => ({| status := 204; body := Nothing |}, db')
  | (Throws, db') => ({| status := 500; body := Message "Failed to delete comment" |}, db')
  end.

End Routes.

End Api.

(** ** Samples for the upload route and the editor *)

Module Samples.

Definition heic : Upload.file :=
  {| Upload.originalname := "IMG_0001.HEIC"; Upload.mimetype := "image/heic" |}.

Definition blob : Upload.file :=
  {| Upload.originalname := "blob"; Upload.mimetype := "image/jpeg" |}.

Definition page : Upload.file :=
  {| Upload.originalname := "index.html"; Upload.mimetype := "text/html" |}.

(** A request for the stored name of [heic], with a width. *)
Definition req_heic : request :=
  Lab.get "/1700000000000-42.HEIC" (Some "200") None None.


(** A request with decimal parameters. *)
Definition req_decimal : request := Lab.get "/photo.jpg" (Some "400") (Some "70") (Some "-3").




(** A storage that keeps entries in a list, an entry being its text
    and its id its position; it refuses an empty text and keeps no
    comments. *)
Definition memory :
    @Api.Backend string string string string string string string (list string) := {|
  Api.getAllEntries db := (Api.Returns db, db);
  Api.getEntry id db :=
    (Api.Returns (match id with Js.Num z => db !! Z.to_nat z | Js.NaN => None end), db);
  Api.createEntry data db := (Api.Returns data, db ++ [data]);
  Api.updateEntry id data db :=
    match id with
    | Js.Num z =>
        (Api.Returns (match db !! Z.to_nat z with Some _ => Some data | None => None end),
         <[Z.to_nat z := data]> db)
    | Js.NaN => (Api.Returns None, db)
    end;
  Api.deleteEntry id db := (Api.Throws, db);
  Api.getComments id db := (Api.Returns [], db);
  Api.addComment data db := (Api.Throws, db);
  Api.deleteComment id db := (Api.Returns false, db);
  Api.insertEntrySchema b :=
    if bool_decide (b = EmptyString) then inl "Required" else inr b;
  Api.insertCommentSchema entryId content :=
    if bool_decide (content = EmptyString) then inl "Required" else inr content;
|}.

(** Media lists of the editor. *)
Definition urls : list string := ["/uploads/1-1.jpg"; "/uploads/2-2.jpg"].
Definition blob_url : string := "blob:5f3c".

End Samples.

(** ** Decimal text in a query parameter *)

Module Decimal.

(** Text after the decimal text of [z] at which [parseInt] stops
    reading: it is empty or starts with something else than a digit,
    and after a lone [0] not with an [x], which would announce a
    hexadecimal number. *)
Definition trailing (z : Z) (s : string) : bool :=
  match s with
  | EmptyString => true
  | String c _ =>
      negb (Js.is_digit 10 c) &&
      negb ((z =? 0) && (Ascii.eqb c "x" || Ascii.eqb c "X"))
  end.

End Decimal.

(** * The model on samples *)

Example parseInt_samples :
  Js.parseInt "400" = Js.Num 400 /\ Js.parseInt " -12px" = Js.Num (-12) /\
  Js.parseInt "085" = Js.Num 85 /\ Js.parseInt "0x1F" = Js.Num 31 /\
  Js.parseInt "1e3" = Js.Num 1 /\ Js.parseInt "abc" = Js.NaN /\
  Js.parseInt "+" = Js.NaN /\ Js.parseInt "0x" = Js.NaN.
Proof. repeat split. Qed.

Example basename_samples :
  Path.basename "/photo.jpg" = "photo.jpg" /\
  Path.basename "/a/b/photo.jpg" = "photo.jpg" /\
  Path.basename "/a/b//" = "b" /\
  Path.basename "/" = EmptyString /\
  Path.basename "/.." = "..".
Proof. repeat split. Qed.

Example join_samples :
  Path.join ["srv"; "uploads"] "x.jpg" = ["srv"; "uploads"; "x.jpg"] /\
  Path.join ["srv"; "uploads"] "." = ["srv"; "uploads"] /\
  Path.join ["srv"; "uploads"] ".." = ["srv"] /\
  Path.join ["srv"; "uploads"] "a/../b" = ["srv"; "uploads"; "b"].
Proof. repeat split. Qed.

Example split_ext_samples :
  Path.split_ext "photo.jpg" = ("photo", ".jpg") /\
  Path.split_ext "a.b.png" = ("a.b", ".png") /\
  Path.split_ext ".jpg" = (".jpg", EmptyString) /\
  Path.split_ext "a." = ("a", ".") /\
  Path.split_ext ".." = ("..", EmptyString) /\
  Path.split_ext "noext" = ("noext", EmptyString).
Proof. repeat split. Qed.

Example classifier_samples :
  isImage "IMG_1.JPG" = true /\ isImage "a.jpeg" = true /\ isImage "a.jpgx" = false /\
  isImage "jpg" = false /\ isVideo "clip.MOV" = true /\ isVideo "clip.mp4.txt" = false.
Proof. repeat split. Qed.

(** The scenario of the specification: [?w=400] on [photo.jpg] is cached
    under [photo-w400-q85-mnull.jpg], and the same request again is
    answered from the cache without a call to sharp. *)
Example key_sample : key_of Lab.req_width = "photo-w400-q85-mnull.jpg".
Proof. reflexivity. Qed.

Example second_request_sample :
  @calls Lab.shrinking Lab.req_width
    (@middleware Lab.shrinking Lab.req_width Lab.world0).2 =
  [ExistsSync ["srv"; "diary"; "uploads"; "photo.jpg"] true;
   ExistsSync ["srv"; "diary"; "uploads"; ".cache"; "photo-w400-q85-mnull.jpg"] true].
Proof. vm_compute. reflexivity. Qed.

(** The ladder of the specification's scenario: with a 1 KB limit the
    shrinking encoder is asked for 85, 70, 55, 40 and 25. *)
Example ladder_sample :
  (encodes (@calls Lab.shrinking Lab.req_thumb Lab.world0)).*1 =
  Js.Num <$> [85; 70; 55; 40; 25].
Proof. vm_compute. reflexivity. Qed.

(** * Facts about strings *)

Section TextFacts.

Import Text.

Lemma has_char_app c a b :
  has_char c (a +:+ b) = has_char c a || has_char c b.
Proof.
  induction a as [|x a IH]; [done|].
  change (String x a +:+ b) with (String x (a +:+ b)).
  cbn [has_char]. rewrite IH. by rewrite orb_assoc.
Qed.

Lemma app_cons_string c (a b : string) : String c a +:+ b = String c (a +:+ b).
Proof. done. Qed.

Lemma app_nil_string (b : string) : EmptyString +:+ b = b.
Proof. done. Qed.

Lemma has_char_cons c x s :
  has_char c (String x s) = Ascii.eqb x c || has_char c s.
Proof. done. Qed.




Lemma app_assoc_string (a b c : string) : (a +:+ b) +:+ c = a +:+ b +:+ c.
Proof.
  induction a as [|h a IH]; [done|].
  change (String h ((a +:+ b) +:+ c) = String h (a +:+ b +:+ c)). by rewrite IH.
Qed.

Lemma numeric_other c x :
  numeric c = false -> numeric x = true -> Ascii.eqb x c = false.
Proof. intros Hc Hx. apply Ascii.eqb_neq. intros ->. congruence. Qed.

(** The decimal text of an integer has digits and a minus sign only. *)
Lemma pretty_N_go_numeric c x s :
  numeric c = false -> has_char c s = false -> has_char c (pretty_N_go x s) = false.
Proof.
  intros Hc. revert s. induction (N.lt_wf_0 x) as [x _ IH]; intros s Hs.
  assert (x = 0 ∨ 0 < x)%N as [->|?] by lia.
  - by rewrite pretty_N_go_0.
  - rewrite pretty_N_go_step by done. apply IH.
    { by apply N.div_lt. }
    rewrite has_char_cons, Hs, orb_false_r.
    apply numeric_other; [done|].
    unfold pretty_N_char. by repeat case_match.
Qed.

Lemma pretty_Z_numeric c (z : Z) :
  numeric c = false -> has_char c (pretty z) = false.
Proof.
  intros Hc. unfold pretty, pretty_Z.
  assert (forall p : positive, has_char c (pretty p) = false) as Hp.
  { intros p. unfold pretty, pretty_positive, pretty, pretty_N.
    case_decide; [done|]. by apply pretty_N_go_numeric. }
  destruct z as [|p|p]; [| apply Hp |].
  - change (has_char c (String "0" EmptyString) = false).
    rewrite has_char_cons, orb_false_r. by apply numeric_other.
  - change ("-" +:+ pretty p) with (String "-" (pretty p)).
    rewrite has_char_cons, Hp, orb_false_r. by apply numeric_other.
Qed.

End TextFacts.

(** Bring a concatenation into right-nested form. *)
Ltac string_normal :=
  repeat (rewrite ?app_assoc_string, ?app_cons_string, ?app_nil_string).

(** * Facts about numbers as text and about paths *)

Section JsFacts.

Import Text.

Lemma num_to_string_chars c n :
  numeric c = false -> has_char c "NaN" = false ->
  has_char c (Js.num_to_string n) = false.
Proof. intros Hn Ha. destruct n as [|z]; [done|]. by apply pretty_Z_numeric. Qed.

Lemma num_to_string_foreign c n :
  foreign c = true -> has_char c (Js.num_to_string n) = false.
Proof.
  unfold foreign. intros [[Hn Ha]%andb_prop Hu]%andb_prop.
  apply negb_true_iff in Hn, Ha. by apply num_to_string_chars.
Qed.

Lemma nullable_to_string_foreign c v :
  foreign c = true -> has_char c (Js.nullable_to_string v) = false.
Proof.
  intros Hc. destruct v as [n|]; [by apply num_to_string_foreign|].
  unfold foreign in Hc. apply andb_prop in Hc as [_ Hu].
  by apply negb_true_iff in Hu.
Qed.



End JsFacts.

Section PathFacts.

Import Text Path.

Lemma segments_no_slash s seg : In seg (segments s) -> has_slash seg = false.
Proof.
  revert seg. induction s as [|c s IH]; intros seg; cbn [segments].
  - intros [<-|[]]. done.
  - destruct (is_slash c) eqn:Hc.
    + intros [<-|Hin]; [done|by apply IH].
    + destruct (segments s) as [|x rest] eqn:Hs.
      * intros [<-|[]]. unfold has_slash. cbn [has_char].
        unfold is_slash in Hc. by rewrite Hc.
      * intros [<-|Hin].
        -- unfold has_slash. cbn [has_char]. unfold is_slash in Hc. rewrite Hc.
           apply (IH x). by left.
        -- apply IH. by right.
Qed.

Lemma segments_plain s : has_slash s = false -> segments s = [s].
Proof.
  induction s as [|c s IH]; [done|].
  unfold has_slash. cbn [has_char segments]. intros [Hc Hs]%orb_false_elim.
  unfold is_slash. rewrite Hc. by rewrite (IH Hs).
Qed.

Lemma basename_no_slash p : has_slash (basename p) = false.
Proof.
  unfold basename.
  assert (forall l : list string, (forall x, In x l -> has_slash x = false) ->
            has_slash (List.last l EmptyString) = false) as Hlast.
  { intros l. induction l as [|x [|y l] IH]; intros Hl; [done|..].
    - apply Hl. by left.
    - apply IH. intros z Hz. apply Hl. by right. }
  apply Hlast. intros x [Hx _]%filter_In. by eapply segments_no_slash.
Qed.

Lemma basename_plain s : has_slash s = false -> basename s = s.
Proof.
  intros Hs. unfold basename. rewrite (segments_plain s Hs).
  by destruct s.
Qed.

Lemma join_plain dir s : has_slash s = false -> join dir s = enter dir s.
Proof. intros Hs. unfold join. by rewrite (segments_plain s Hs). Qed.

(** A proper file name is entered as one more component. *)
Lemma join_child dir s :
  has_slash s = false -> s <> EmptyString -> s <> "." -> s <> ".." ->
  join dir s = dir ++ [s].
Proof.
  intros Hs ???. rewrite join_plain by done. unfold enter.
  by repeat case_decide.
Qed.

Lemma cut_last_dot_some s a b :
  cut_last_dot s = Some (a, b) ->
  s = a +:+ String "." b /\ has_char "." b = false.
Proof.
  revert a b. induction s as [|c s IH]; intros a b; [done|].
  cbn [cut_last_dot]. destruct (cut_last_dot s) as [[a' b']|] eqn:Hs.
  - intros [= <- <-]. destruct (IH _ _ eq_refl) as [-> Hb]. done.
  - destruct (Ascii.eqb c ".") eqn:Hc; [|done].
    intros [= <- <-]. apply Ascii.eqb_eq in Hc as ->. split; [done|].
    clear IH. induction s as [|d s IH]; [done|].
    cbn [cut_last_dot] in Hs. destruct (cut_last_dot s) as [[??]|]; [done|].
    destruct (Ascii.eqb d ".") eqn:Hd; [done|].
    cbn [has_char]. rewrite Hd. by apply IH.
Qed.

Lemma cut_last_dot_none s : cut_last_dot s = None -> has_char "." s = false.
Proof.
  induction s as [|d s IH]; [done|].
  cbn [cut_last_dot]. destruct (cut_last_dot s) as [[??]|]; [done|].
  destruct (Ascii.eqb d ".") eqn:Hd; [done|].
  intros _. cbn [has_char]. rewrite Hd. by apply IH.
Qed.

Lemma split_ext_shape s : ext_shape s (fst (split_ext s)) (snd (split_ext s)).
Proof.
  unfold split_ext. destruct (cut_last_dot s) as [[pre post]|] eqn:Hcut.
  - destruct (cut_last_dot_some _ _ _ Hcut) as [Hs Hpost].
    destruct (bool_decide (pre = EmptyString)) eqn:Hpre; cbn [orb fst snd].
    + apply bool_decide_eq_true in Hpre as ->. by eapply shape_hidden.
    + apply bool_decide_eq_false in Hpre.
      destruct (bool_decide (s = "..")) eqn:Hdd; cbn [fst snd].
      * apply bool_decide_eq_true in Hdd. by apply shape_dots.
      * by apply shape_ext.
  - cbn [fst snd]. apply shape_no_dot. by apply cut_last_dot_none.
Qed.

Lemma app_empty_string s : s +:+ EmptyString = s.
Proof.
  induction s as [|c s IH]; [done|].
  change (String c (s +:+ EmptyString) = String c s). by f_equal.
Qed.

Lemma ext_shape_app s n e : ext_shape s n e -> s = n +:+ e.
Proof. intros [| | |]; by rewrite ?app_empty_string. Qed.

End PathFacts.

(** * Facts about derivative keys *)

Section KeyFacts.

Context `{Host}.
Import Text Path.

Lemma cacheKey_stem f w q m :
  cacheKey f w q m =
  key_stem (parse_name f) (Js.nullable_to_string w) (Js.num_to_string q)
           (Js.nullable_to_string m) +:+ parse_ext f.
Proof. unfold cacheKey, key_stem. by string_normal. Qed.


Lemma key_stem_has_w name W Q M : has_char "w" (key_stem name W Q M) = true.
Proof.
  unfold key_stem. rewrite has_char_app.
  string_normal. cbn [has_char]. rewrite Ascii.eqb_refl. by rewrite !orb_true_r.
Qed.






End KeyFacts.

(** * Runs of the quality loop *)

Section RunFacts.

Context `{Host}.

Lemma logs_nil w : logs [] w = w.
Proof. destruct w. unfold logs. cbn. by rewrite app_nil_r. Qed.

Lemma logs_logs l1 l2 w : logs l2 (logs l1 w) = logs (l1 ++ l2) w.
Proof. unfold logs. cbn. by rewrite app_assoc. Qed.

Lemma log_logs e w : log e w = logs [e] w.
Proof. done. Qed.

(** The loop ends, and in the way [ladder_chain] describes, as soon as
    the fuel covers the attempts that are left. *)
Lemma reencode_chain fuel fp resize fmt m n st :
  0 <= attempts st -> (Z.to_nat (5 - attempts st) <= fuel)%nat ->
  exists tries o,
    ladder_chain (encode_node n resize fmt) m st tries o /\
    forall w, disk w !! fp = n ->
      reencode fuel fp resize fmt m st w =
      (o, logs (map (fun t => SharpToBuffer fp resize fmt t.1 t.2) tries) w).
Proof.
  revert st. induction fuel as [|fuel IH]; intros st Hlo Hfuel.
  - assert (continue m st = false) as Hc.
    { unfold continue. replace (attempts st <? 5) with false; [by rewrite andb_false_r|].
      symmetry. apply Z.ltb_ge. lia. }
    exists [], (Ok st). split; [by constructor|].
    intros w _. cbn [reencode]. rewrite Hc. by rewrite logs_nil.
  - destruct (continue m st) eqn:Hc.
    + destruct (encode_node n resize fmt (lower (adjustedQuality st))) as [buf|] eqn:Henc.
      * destruct (IH {| finalBuffer := buf; adjustedQuality := lower (adjustedQuality st);
                        attempts := attempts st + 1 |}) as (tries & o & Hchain & Hrun).
        { cbn. lia. }
        { cbn. lia. }
        exists ((lower (adjustedQuality st), Some buf) :: tries), o.
        split; [by apply chain_step|].
        intros w Hw. cbn [reencode]. rewrite Hc.
        unfold bind, toBuffer. rewrite Hw. fold (lower (adjustedQuality st)).
        rewrite Henc. rewrite Hrun by done. by rewrite log_logs, logs_logs.
      * exists [(lower (adjustedQuality st), None)], (Throw TransformError).
        split; [by apply chain_fail|].
        intros w Hw. cbn [reencode]. rewrite Hc.
        unfold bind, toBuffer. rewrite Hw. fold (lower (adjustedQuality st)).
        by rewrite Henc.
    + exists [], (Ok st). split; [by constructor|].
      intros w _. cbn [reencode]. rewrite Hc. by rewrite logs_nil.
Qed.

Lemma ladder_chain_ends enc m st tries o :
  ladder_chain enc m st tries o -> o <> Diverge.
Proof. induction 1; done. Qed.

Lemma ladder_run_total fp n resize fmt m buf q :
  exists tries o,
    ladder_run (encode_node n resize fmt) m buf q tries o /\
    forall w, disk w !! fp = n ->
      (if Js.truthy m && over_budget buf m
       then reencode 5 fp resize fmt m
              {| finalBuffer := buf; adjustedQuality := q; attempts := 0 |}
       else ret {| finalBuffer := buf; adjustedQuality := q; attempts := 0 |}) w =
      (o, logs (map (fun t => SharpToBuffer fp resize fmt t.1 t.2) tries) w).
Proof.
  unfold ladder_run. destruct (Js.truthy m && over_budget buf m).
  - apply reencode_chain; cbn; lia.
  - eexists [], _. split; [done|]. intros w _. by rewrite logs_nil.
Qed.

End RunFacts.

(** * Runs of the middleware *)

Section RunFacts2.

Context `{Host}.

(** Every run of the middleware is one of the [steps], chosen by what
    the disk holds at the two paths of the request. *)
Lemma middleware_steps req file cached wr :
  exists o new data,
    steps req file cached wr o new data /\
    forall w,
      disk w !! filePath_of req = file ->
      bool_decide (is_Some (disk w !! cachePath_of req)) = cached ->
      writable w = wr ->
      middleware req w = (o, after (cachePath_of req) new data w).
Proof.
  destruct file as [n|]; cycle 1.
  { eexists _, _, None. split; [by apply steps_absent|].
    intros w Hf _ _. unfold middleware, bind, existsSync.
    fold (filename_of req). fold (filePath_of req). rewrite Hf. done. }
  destruct (processed req) eqn:Hp; cycle 1.
  { eexists _, _, None. split; [by apply steps_skip|].
    intros w Hf _ _. unfold middleware, bind, existsSync.
    fold (filename_of req). fold (filePath_of req). rewrite Hf.
    rewrite bool_decide_eq_true_2 by done. cbn [negb].
    unfold processed in Hp. apply negb_false_iff in Hp. by rewrite Hp. }
  assert (forall w, disk w !! filePath_of req = Some n ->
    middleware req w =
    try_catch (process (filename_of req) (filePath_of req) (width_of req)
                 (quality_of req) (maxSize_of req))
      (fun e => let* _ := emit (ConsoleError e) in ret Next)
      (logs [ExistsSync (filePath_of req) true] w)) as Hmid.
  { intros w Hf. unfold middleware, bind at 1, existsSync.
    fold (filename_of req). fold (filePath_of req). rewrite Hf.
    rewrite bool_decide_eq_true_2 by done. cbn [negb].
    unfold processed in Hp. apply negb_true_iff in Hp. by rewrite Hp. }
  destruct cached.
  { eexists _, _, None. split; [by apply steps_hit|].
    intros w Hf Hc _. rewrite Hmid by done.
    unfold try_catch, process, bind, existsSync.
    fold (key_of req). fold (cachePath_of req). cbn [disk logs].
    rewrite Hc. unfold ret, after, logs, log. cbn. by rewrite <-!app_assoc. }
  destruct (decode_node (Some n)) as [format|] eqn:Hdec; cycle 1.
  { eexists _, _, None. split; [by apply steps_undecodable|].
    intros w Hf Hc _. rewrite Hmid by done.
    unfold try_catch, process, bind, existsSync, metadata.
    fold (key_of req). fold (cachePath_of req). cbn [disk logs log].
    rewrite Hc. cbn [disk logs log]. rewrite Hf, Hdec.
    unfold emit, ret, after, logs, log. cbn.
    by rewrite <-!app_assoc. }
  destruct (encode_node (Some n) (resize_of (width_of req)) (outputFormat format)
              (quality_of req)) as [buf|] eqn:Henc; cycle 1.
  { eexists _, _, None. split; [by eapply steps_encode_fails|].
    intros w Hf Hc _. rewrite Hmid by done.
    unfold try_catch, process, bind, existsSync, metadata, toBuffer.
    fold (key_of req). fold (cachePath_of req). cbn [disk logs log].
    rewrite Hc. cbn [disk logs log]. rewrite Hf, Hdec. cbn [disk logs log].
    rewrite ?Hf, Henc. unfold emit, ret, after, logs, log. cbn.
    by rewrite <-!app_assoc. }
  destruct (ladder_run_total (filePath_of req) (Some n) (resize_of (width_of req))
              (outputFormat format) (maxSize_of req) buf (quality_of req))
    as (tries & o & Hladder & Hrun).
  assert (forall w,
    disk w !! filePath_of req = Some n ->
    bool_decide (is_Some (disk w !! cachePath_of req)) = false ->
    middleware req w =
    try_catch
      (bind (fun w' => (o, logs (map (fun t => SharpToBuffer (filePath_of req)
               (resize_of (width_of req)) (outputFormat format) t.1 t.2) tries) w'))
         (fun st => let* _ := writeFileSync (cachePath_of req) (finalBuffer st) in
                    ret (Send (content_type (outputFormat format)) (finalBuffer st))))
      (fun e => let* _ := emit (ConsoleError e) in ret Next)
      (logs [ExistsSync (filePath_of req) true; ExistsSync (cachePath_of req) false;
             SharpMetadata (filePath_of req) (Some format);
             SharpToBuffer (filePath_of req) (resize_of (width_of req))
               (outputFormat format) (quality_of req) (Some buf)] w)) as Hmid2.
  { intros w Hf Hc. rewrite Hmid by done.
    unfold try_catch, process, bind at 1 2 3, existsSync, metadata, toBuffer.
    fold (key_of req). fold (cachePath_of req). cbn [disk logs log].
    rewrite Hc. cbn [disk logs log]. rewrite Hf, Hdec. cbn [disk logs log].
    rewrite ?Hf, Henc.
    match goal with
    | |- context [log ?e3 (log ?e2 (log ?e1 (logs [?e0] w)))] =>
        replace (log e3 (log e2 (log e1 (logs [e0] w))))
          with (logs [e0; e1; e2; e3] w)
          by (unfold logs, log; cbn; by rewrite <-!app_assoc)
    end.
    set (w1 := logs _ w) in *.
    specialize (Hrun w1 Hf).
    destruct (Js.truthy (maxSize_of req) && over_budget buf (maxSize_of req)).
    - unfold bind at 1 3. by rewrite Hrun.
    - unfold ret in Hrun.
      pose proof (f_equal fst Hrun) as Ho. pose proof (f_equal snd Hrun) as Hw1.
      cbn [fst snd] in Ho, Hw1. subst o.
      rewrite Hw1 at 1. done. }
  destruct o as [st|e|].
  - destruct wr.
    + eexists _, _, (Some (finalBuffer st)). split; [by eapply steps_sent|].
      intros w Hf Hc Hw. rewrite (Hmid2 w) by done.
      unfold try_catch, bind, writeFileSync, ret. cbn [writable logs].
      rewrite Hw. unfold after, logs, log, store. cbn.
      rewrite <-!app_assoc. done.
    + eexists _, _, None. split; [by eapply steps_write_fails|].
      intros w Hf Hc Hw. rewrite (Hmid2 w) by done.
      unfold try_catch, bind, writeFileSync, ret, emit. cbn [writable logs].
      rewrite Hw. unfold after, logs, log, store. cbn.
      rewrite <-!app_assoc. done.
  - eexists _, _, None. split; [by eapply steps_ladder_fails|].
    intros w Hf Hc Hw. rewrite (Hmid2 w) by done.
    unfold try_catch, bind, ret, emit. unfold after, logs, log, store. cbn.
    rewrite <-!app_assoc. done.
  - exfalso. unfold ladder_run in Hladder.
    destruct (Js.truthy _ && _); [by eapply ladder_chain_ends|by destruct Hladder].
Qed.

End RunFacts2.

(** * Facts about the ladder *)

Section LadderFacts.

Context `{Host}.

Lemma continue_false m st :
  continue m st = false -> attempts st <= 5 ->
  over_budget (finalBuffer st) m = false \/
  Js.gt (adjustedQuality st) (Js.Num 10) = false \/ attempts st = 5.
Proof.
  unfold continue. intros Hc Hle.
  destruct (over_budget _ _); [|by left].
  destruct (Js.gt _ _); [|by (right; left)].
  right; right. cbn in Hc. apply Z.ltb_ge in Hc. lia.
Qed.

Lemma continue_true m st :
  continue m st = true ->
  over_budget (finalBuffer st) m = true /\
  Js.gt (adjustedQuality st) (Js.Num 10) = true /\ attempts st < 5.
Proof.
  unfold continue. intros [[??]%andb_prop Hlt]%andb_prop.
  apply Z.ltb_lt in Hlt. done.
Qed.

(** A loop that ends normally made attempts that descend. *)
Lemma chain_descends enc m st tries st' :
  ladder_chain enc m st tries (Ok st') -> attempts st <= 5 ->
  exists rest : list (Js.num * Buffer),
    tries = (fun a => (a.1, Some a.2)) <$> rest /\
    descends m (attempts st) ((adjustedQuality st, finalBuffer st) :: rest) /\
    last ((adjustedQuality st, finalBuffer st) :: rest) =
      Some (adjustedQuality st', finalBuffer st') /\
    Forall (fun a => enc a.1 = Some a.2) rest.
Proof.
  intros Hchain. remember (Ok st') as o eqn:Ho.
  induction Hchain as [st Hc|st Hc Henc|st buf tries o Hc Henc Hchain IH]; intros Hle.
  - injection Ho as ->. exists []. split; [done|]. split; [|done].
    apply descends_last. by apply continue_false.
  - done.
  - destruct (continue_true _ _ Hc) as (Hover & Hgt & Hlt).
    destruct (IH Ho) as (rest & -> & Hdesc & Hlast & Henc'); [cbn; lia|].
    exists ((lower (adjustedQuality st), buf) :: rest). cbn in *.
    split; [done|]. split; [by apply descends_more|]. split; [done|].
    by constructor.
Qed.

Lemma run_descends enc m buf q tries st :
  ladder_run enc m buf q tries (Ok st) -> Js.truthy m = true ->
  exists rest : list (Js.num * Buffer),
    tries = (fun a => (a.1, Some a.2)) <$> rest /\
    descends m 0 ((q, buf) :: rest) /\
    last ((q, buf) :: rest) = Some (adjustedQuality st, finalBuffer st) /\
    Forall (fun a => enc a.1 = Some a.2) rest.
Proof.
  unfold ladder_run. intros Hrun Hm. rewrite Hm in Hrun. cbn [andb] in Hrun.
  destruct (over_budget buf m) eqn:Hover.
  - apply chain_descends in Hrun; [|cbn; lia]. done.
  - destruct Hrun as [-> [= ->]]. exists []. cbn.
    split; [done|]. split; [|done]. apply descends_last. by left.
Qed.


(** Attempts that end over budget at a requested quality from 71 to 85
    are six, and end at quality 10. *)
Lemma descends_full m k x b rest q body :
  descends m k ((Js.Num x, b) :: rest) ->
  last ((Js.Num x, b) :: rest) = Some (q, body) ->
  over_budget body m = true ->
  0 <= k <= 5 -> (k <= 4 -> 71 - 15 * k <= x <= 85 - 15 * k) -> (k = 5 -> x = 10) ->
  ((Js.Num x, b) :: rest).*1 = ladder_from (Js.Num x) (Z.to_nat (6 - k)) /\
  q = Js.Num 10.
Proof.
  intros Hdesc. remember ((Js.Num x, b) :: rest) as atts eqn:Hatts.
  revert x b rest Hatts.
  induction Hdesc as [k q0 b0 Hstop|k q0 b0 b1 rest0 Hover Hgt Hlt Hdesc IH];
    intros x b rest [= -> -> <-] Hlast Hbody Hk Hrange Hfive.
  - cbn in Hlast. injection Hlast as <- <-.
    destruct Hstop as [Hstop|[Hstop| ->]].
    + congruence.
    + cbn in Hstop. apply Z.ltb_ge in Hstop.
      assert (k = 5) as -> by lia. by rewrite Hfive.
    + by rewrite Hfive.
  - cbn in Hgt. apply Z.ltb_lt in Hgt.
    assert (lower (Js.Num x) = Js.Num (Z.max 10 (x - 15))) as Hlow by done.
    rewrite Hlow in *.
    destruct (IH _ _ _ eq_refl) as [Hq ->]; [done|done|lia|lia|lia|].
    split; [|done].
    replace (Z.to_nat (6 - k)) with (S (Z.to_nat (6 - (k + 1)))) by lia.
    cbn [ladder_from fmap list_fmap fst]. rewrite Hlow. f_equal. exact Hq.
Qed.

Lemma descends_stop m k atts q body :
  descends m k atts -> last atts = Some (q, body) ->
  over_budget body m = false \/ Js.gt q (Js.Num 10) = false \/
  k + Z.of_nat (length atts) = 6.
Proof.
  induction 1 as [k q0 b0 Hstop|k q0 b0 b1 rest0 Hover Hgt Hlt Hdesc IH].
  - intros [= <- <-]. cbn. destruct Hstop as [?|[?| ->]]; auto.
  - intros Hlast. destruct (IH Hlast) as [?|[?|Hlen]]; auto.
    right; right. cbn [length] in *. lia.
Qed.

Lemma descends_length m k atts :
  descends m k atts -> 0 <= k -> 1 <= k + Z.of_nat (length atts) <= 6 \/ 5 < k.
Proof.
  induction 1 as [k q0 b0 Hstop|k q0 b0 b1 rest0 Hover Hgt Hlt Hdesc IH]; intros Hk.
  - cbn. lia.
  - destruct IH as [IH|IH]; [lia| |lia]. cbn [length] in *. lia.
Qed.

End LadderFacts.

(** * The paths of a request *)

Section RequestFacts.

Context `{Host}.
Import Text Path.

Lemma isImage_proper f : isImage f = true -> f <> EmptyString /\ f <> "." /\ f <> "..".
Proof. intros Hf. repeat split; intros ->; by vm_compute in Hf. Qed.

Lemma filename_no_slash req : has_slash (filename_of req) = false.
Proof. apply basename_no_slash. Qed.

Lemma processed_image req : processed req = true -> isImage (filename_of req) = true.
Proof.
  unfold processed, skip. intros Hp. apply negb_true_iff in Hp.
  apply orb_false_elim in Hp as [Hp _]. apply orb_false_elim in Hp as [_ Hp].
  by apply negb_false_iff in Hp.
Qed.

Lemma child_of_join dir s :
  has_slash s = false -> s <> EmptyString -> s <> "." -> s <> ".." ->
  join dir s = dir ++ [s] /\ child_of dir (join dir s).
Proof.
  intros. rewrite join_child by done. split; [done|]. by exists s.
Qed.

(** The original of a processed request is a file name directly inside
    the uploads directory. *)
Lemma filePath_processed req :
  processed req = true ->
  filePath_of req = uploadsDir ++ [filename_of req] /\
  child_of uploadsDir (filePath_of req).
Proof.
  intros Hp. destruct (isImage_proper _ (processed_image _ Hp)) as (? & ? & ?).
  apply child_of_join; auto using filename_no_slash.
Qed.

(** Where the existence check of any request goes. *)
Lemma filePath_cases req :
  (filePath_of req = uploadsDir ++ [filename_of req] /\
   child_of uploadsDir (filePath_of req)) \/
  ((filename_of req = EmptyString \/ filename_of req = ".") /\ filePath_of req = uploadsDir) \/
  (filename_of req = ".." /\ filePath_of req = cwd).
Proof.
  pose proof (filename_no_slash req) as Hs.
  destruct (decide (filename_of req = EmptyString)) as [He|He].
  { right; left. split; [by left|]. unfold filePath_of. by rewrite He. }
  destruct (decide (filename_of req = ".")) as [Hd|Hd].
  { right; left. split; [by right|]. unfold filePath_of. by rewrite Hd. }
  destruct (decide (filename_of req = "..")) as [Hdd|Hdd].
  { right; right. split; [done|]. unfold filePath_of. rewrite Hdd.
    unfold join, uploadsDir. cbn [segments is_slash Ascii.eqb Bool.eqb fold_left].
    unfold enter. repeat case_decide; try done. apply removelast_last. }
  left. by apply child_of_join.
Qed.

Lemma filePath_length req : (length (filePath_of req) <= length cwd + 2)%nat.
Proof.
  destruct (filePath_cases req) as [[-> _]|[[_ ->]|[_ ->]]];
    unfold uploadsDir; rewrite ?length_app; cbn; lia.
Qed.

Lemma split_ext_no_slash f :
  has_slash f = false ->
  has_slash (split_ext f).1 = false /\ has_slash (split_ext f).2 = false.
Proof.
  intros Hf. pose proof (ext_shape_app _ _ _ (split_ext_shape f)) as Hsplit.
  unfold has_slash in *. rewrite Hsplit, has_char_app in Hf.
  by apply orb_false_elim in Hf.
Qed.

Lemma cacheKey_no_slash f w q m :
  has_slash f = false -> has_slash (cacheKey f w q m) = false.
Proof.
  intros Hf. rewrite cacheKey_stem. unfold parse_name, parse_ext.
  rewrite basename_plain by done.
  destruct (split_ext_no_slash f Hf) as [Hn He].
  unfold has_slash, key_stem in *. rewrite !has_char_app, Hn, He.
  rewrite !nullable_to_string_foreign, num_to_string_foreign by done. done.
Qed.

Lemma cacheKey_proper f w q m :
  cacheKey f w q m <> EmptyString /\ cacheKey f w q m <> "." /\ cacheKey f w q m <> "..".
Proof.
  assert (has_char "w" (cacheKey f w q m) = true) as Hw.
  { rewrite cacheKey_stem, has_char_app, key_stem_has_w. done. }
  repeat split; intros Heq; by rewrite Heq in Hw.
Qed.

(** The cache path of a request is a file name directly inside the
    cache directory. *)
Lemma cachePath_child req :
  cachePath_of req = resizedCacheDir ++ [key_of req] /\
  child_of resizedCacheDir (cachePath_of req).
Proof.
  destruct (cacheKey_proper (filename_of req) (width_of req) (quality_of req)
              (maxSize_of req)) as (? & ? & ?).
  apply child_of_join; [|done..].
  apply cacheKey_no_slash, filename_no_slash.
Qed.

Lemma cachePath_length req : length (cachePath_of req) = (length cwd + 3)%nat.
Proof.
  destruct (cachePath_child req) as [-> _].
  unfold resizedCacheDir. rewrite !length_app. cbn. lia.
Qed.

Lemma filePath_not_cachePath req req' : filePath_of req <> cachePath_of req'.
Proof.
  intros Heq. pose proof (filePath_length req) as Hl.
  rewrite Heq, cachePath_length in Hl. lia.
Qed.



(** *** Runs *)

Lemma trace_after p new data w : trace (after p new data w) = trace w ++ new.
Proof. by destruct data. Qed.

Lemma disk_after p new data w :
  disk (after p new data w) =
  match data with Some b => <[p := File b]> (disk w) | None => disk w end.
Proof. by destruct data. Qed.

Lemma middleware_run req w :
  exists o new data,
    steps req (disk w !! filePath_of req)
      (bool_decide (is_Some (disk w !! cachePath_of req))) (writable w) o new data /\
    middleware req w = (o, after (cachePath_of req) new data w) /\
    calls req w = new.
Proof.
  destruct (middleware_steps req (disk w !! filePath_of req)
              (bool_decide (is_Some (disk w !! cachePath_of req))) (writable w))
    as (o & new & data & Hsteps & Hrun).
  exists o, new, data. split; [done|].
  specialize (Hrun w eq_refl eq_refl eq_refl). split; [done|].
  unfold calls. rewrite Hrun. cbn [snd]. rewrite trace_after.
  apply drop_app_length.
Qed.

End RequestFacts.

(** * Determinism of runs *)

Section Determinism.

Context `{Host}.

(** The loop is deterministic. *)
Lemma ladder_chain_det enc m st tries o tries' o' :
  ladder_chain enc m st tries o -> ladder_chain enc m st tries' o' ->
  tries = tries' /\ o = o'.
Proof.
  intros Hchain. revert tries' o'.
  induction Hchain as [st Hc|st Hc Henc|st buf tries o Hc Henc Hchain IH];
    intros tries' o' Hchain'; inversion Hchain'; subst; try congruence.
  - done.
  - done.
  - match goal with
    | Hb : enc _ = Some ?b, Hrest : ladder_chain _ _ _ ?t ?x |- _ :: _ = _ :: ?t /\ _ = ?x =>
        assert (buf = b) as <- by congruence;
        destruct (IH _ _ Hrest) as [-> ->]
    end. done.
Qed.

Lemma ladder_run_det enc m buf q tries o tries' o' :
  ladder_run enc m buf q tries o -> ladder_run enc m buf q tries' o' ->
  tries = tries' /\ o = o'.
Proof.
  unfold ladder_run. destruct (Js.truthy m && over_budget buf m).
  - apply ladder_chain_det.
  - by intros [-> ->] [-> ->].
Qed.

(** Two requests that agree on the file name, the resize width, the
    quality, the size limit and the pass-through test end alike when
    neither finds its derivative in the cache. *)
Lemma steps_alike req req' file wr o new data o' new' data' :
  filename_of req = filename_of req' ->
  resize_of (width_of req) = resize_of (width_of req') ->
  quality_of req = quality_of req' ->
  maxSize_of req = maxSize_of req' ->
  processed req = processed req' ->
  steps req file false wr o new data ->
  steps req' file false wr o' new' data' ->
  o = o' /\ data = data' /\ (cachePath_of req = cachePath_of req' -> new = new').
Proof.
  intros Hf Hr Hq Hm Hp S1 S2.
  assert (filePath_of req = filePath_of req') as Hfp
    by (unfold filePath_of; congruence).
  destruct S1; inversion S2; subst;
    rewrite <-?Hr, <-?Hq, <-?Hm, <-?Hfp in *;
    try congruence;
    try match goal with
        | H : is_Some None |- _ => by destruct H
        end;
    try (split; [done|]; split; [done|]; intros Hcp; by rewrite <-?Hcp).
  all: repeat match goal with
       | H1 : decode_node ?f = Some ?a, H2 : decode_node ?f = Some ?b |- _ =>
           assert (a = b) as <- by congruence; clear H2
       | H1 : encode_node ?f ?r ?c ?q = Some ?a,
         H2 : encode_node ?f ?r ?c ?q = Some ?b |- _ =>
           assert (a = b) as <- by congruence; clear H2
       | H1 : ladder_run ?e ?m ?b ?q ?t ?o, H2 : ladder_run ?e ?m ?b ?q ?t' ?o' |- _ =>
           destruct (ladder_run_det _ _ _ _ _ _ _ _ H1 H2) as [<- ?]; clear H2
       end; simplify_eq; try (split; [done|]; split; [done|]; intros Hcp; by rewrite <-?Hcp).
Qed.

End Determinism.

(** * Size bound (C1) *)

Section Anatomy.

Context `{Host}.

Lemma encodes_app l1 l2 : encodes (l1 ++ l2) = encodes l1 ++ encodes l2.
Proof. apply omap_app. Qed.

Lemma encodes_map p resize fmt (tries : list (Js.num * option Buffer)) :
  encodes (map (fun t => SharpToBuffer p resize fmt t.1 t.2) tries) = tries.
Proof.
  induction tries as [|[q r] tries IH]; [done|].
  cbn. f_equal. exact IH.
Qed.

(** What is behind a derivative that was sent. *)
Lemma send_anatomy req w ct body w' :
  middleware req w = (Ok (Send ct body), w') ->
  exists format buf tries st,
    decode_node (disk w !! filePath_of req) = Some format /\
    encode_node (disk w !! filePath_of req) (resize_of (width_of req))
      (outputFormat format) (quality_of req) = Some buf /\
    ladder_run
      (encode_node (disk w !! filePath_of req) (resize_of (width_of req))
         (outputFormat format))
      (maxSize_of req) buf (quality_of req) tries (Ok st) /\
    ct = content_type (outputFormat format) /\
    body = finalBuffer st /\
    calls req w =
      [ExistsSync (filePath_of req) true; ExistsSync (cachePath_of req) false;
       SharpMetadata (filePath_of req) (Some format)] ++
      map (fun t => SharpToBuffer (filePath_of req) (resize_of (width_of req))
                      (outputFormat format) t.1 t.2)
          ((quality_of req, Some buf) :: tries) ++
      [WriteFileSync (cachePath_of req) body true] /\
    w' = after (cachePath_of req) (calls req w) (Some body) w /\
    processed req = true /\ writable w = true /\
    disk w !! cachePath_of req = None.
Proof.
  intros Hrun.
  destruct (middleware_run req w) as (o & new & data & Hsteps & Heq & ->).
  rewrite Heq in Hrun. apply pair_equal_spec in Hrun as [Ho <-]. subst o.
  inversion Hsteps as [| | | | | | |format buf tries st Hfile Hp Hc Hdec Henc Hladder Hwr];
    subst.
  exists format, buf, tries, st. split_and!; try done.
  assert (bool_decide (is_Some (disk w !! cachePath_of req)) = false) as Hmiss by done.
  apply bool_decide_eq_false in Hmiss. by apply eq_None_not_Some.
Qed.

(** The attempts behind a derivative sent under a size limit. *)
Lemma send_attempts req w ct body w' :
  middleware req w = (Ok (Send ct body), w') ->
  Js.truthy (maxSize_of req) = true ->
  exists b0 rest,
    encodes (calls req w) =
      (fun a => (a.1, Some a.2)) <$> ((quality_of req, b0) :: rest) /\
    descends (maxSize_of req) 0 ((quality_of req, b0) :: rest) /\
    (exists q, last ((quality_of req, b0) :: rest) = Some (q, body)) /\
    (exists format,
       decode_node (disk w !! filePath_of req) = Some format /\
       Forall (fun a => encode_node (disk w !! filePath_of req)
                          (resize_of (width_of req)) (outputFormat format) a.1 = Some a.2)
         ((quality_of req, b0) :: rest)).
Proof.
  intros Hrun Hm.
  destruct (send_anatomy _ _ _ _ _ Hrun)
    as (format & buf & tries & st & Hdec & Henc & Hladder & _ & -> & Hcalls & _).
  destruct (run_descends _ _ _ _ _ _ Hladder Hm) as (rest & -> & Hdesc & Hlast & Hall).
  exists buf, rest. rewrite Hcalls, !encodes_app, encodes_map. cbn [encodes omap].
  rewrite app_nil_r. split_and!; [done|done|by eexists|].
  exists format. split; [done|]. by constructor.
Qed.

End Anatomy.

Section Claims12.

Context `{Host}.

(** C1 (amended).  A derivative sent for a request with a size limit
    fits the limit, or its quality is not above 10, or 5 re-encodes
    were made.  For a requested quality from 71 to 85, which includes
    the default, a derivative that does not fit was encoded at the
    floor of 10 after all 5 re-encodes. *)
Theorem size_bound_best_effort req w ct body w' :
  middleware req w = (Ok (Send ct body), w') ->
  Js.truthy (maxSize_of req) = true ->
  exists q,
    final_attempt req w = Some (q, Some body) /\
    0 <= reencodes req w <= 5 /\
    (over_budget body (maxSize_of req) = false \/
     Js.gt q (Js.Num 10) = false \/
     reencodes req w = 5) /\
    (forall z, quality_of req = Js.Num z -> 71 <= z <= 85 ->
       over_budget body (maxSize_of req) = false \/
       (q = Js.Num 10 /\ reencodes req w = 5)).
Proof.
  intros Hrun Hm.
  destruct (send_attempts _ _ _ _ _ Hrun Hm)
    as (b0 & rest & Henc & Hdesc & (q & Hlast) & _).
  exists q. unfold final_attempt, reencodes. rewrite Henc.
  rewrite length_fmap, fmap_last, Hlast.
  pose proof (descends_length _ _ _ Hdesc) as Hlen.
  pose proof (descends_stop _ _ _ _ _ Hdesc Hlast) as Hstop.
  split; [done|]. split; [lia|]. split.
  - destruct Hstop as [?|[?|?]]; auto. right; right. lia.
  - intros z Hz Hrange.
    destruct (over_budget body (maxSize_of req)) eqn:Hover; [right|by left].
    rewrite Hz in *.
    destruct (descends_full _ _ _ _ _ _ _ Hdesc Hlast Hover) as [Hq ->]; [lia..|].
    split; [done|]. apply (f_equal length) in Hq.
    rewrite length_fmap in Hq. rewrite Hq.
    assert (forall n x, length (ladder_from x n) = n) as Hl.
    { intros n. induction n as [|n IH]; intros x; cbn; [done|by rewrite IH]. }
    rewrite Hl. cbn. lia.
Qed.

End Claims12.

Lemma size_bound_best_effort_witness :
  exists q,
    @final_attempt Lab.shrinking Lab.req_thumb Lab.world0 = Some (q, Some Lab.small) /\
    0 <= @reencodes Lab.shrinking Lab.req_thumb Lab.world0 <= 5 /\
    (over_budget Lab.small (maxSize_of Lab.req_thumb) = false \/
     Js.gt q (Js.Num 10) = false \/
     @reencodes Lab.shrinking Lab.req_thumb Lab.world0 = 5) /\
    (forall z, quality_of Lab.req_thumb = Js.Num z -> 71 <= z <= 85 ->
       over_budget Lab.small (maxSize_of Lab.req_thumb) = false \/
       (q = Js.Num 10 /\ @reencodes Lab.shrinking Lab.req_thumb Lab.world0 = 5)).
Proof.
  apply (@size_bound_best_effort Lab.shrinking Lab.req_thumb Lab.world0 "image/jpeg"
           Lab.small (snd (@middleware Lab.shrinking Lab.req_thumb Lab.world0)));
    vm_compute; reflexivity.
Defined.

(** At quality 100 on an image that does not compress, the five
    re-encodes end at quality 25 with the output still over budget. *)
Lemma size_bound_stated_fails :
  ~ @size_bound_stated Lab.stubborn Lab.req_high Lab.world0.
Proof.
  intros Hc.
  specialize (Hc "image/jpeg" Lab.big
                (snd (@middleware Lab.stubborn Lab.req_high Lab.world0)) Lab.big).
  destruct Hc as [Hfit|[[r Hq] _]].
  - vm_compute. reflexivity.
  - reflexivity.
  - vm_compute. reflexivity.
  - vm_compute. reflexivity.
  - vm_compute in Hfit. discriminate.
  - vm_compute in Hq. discriminate.
Qed.

(** * Quality ladder (C2) *)

Section Claim2.

Context `{Host}.

(** C2 (amended).  Under a size limit the attempts start at the
    requested quality and descend: each is followed by another one,
    15 lower but not below 10, exactly when its output is over budget,
    its quality is above 10 and fewer than 5 re-encodes were made.
    Every attempt encodes the same original at the same width with the
    same codec.  The output of the last attempt is sent and cached,
    over budget or not.  From the default 85 with every output over
    budget the qualities are 85, then 70, 55, 40, 25, 10. *)
Theorem quality_ladder req w ct body w' :
  middleware req w = (Ok (Send ct body), w') ->
  Js.truthy (maxSize_of req) = true ->
  exists b0 rest,
    encodes (calls req w) =
      (fun a => (a.1, Some a.2)) <$> ((quality_of req, b0) :: rest) /\
    descends (maxSize_of req) 0 ((quality_of req, b0) :: rest) /\
    (exists format,
       decode_node (disk w !! filePath_of req) = Some format /\
       Forall (fun a => encode_node (disk w !! filePath_of req)
                          (resize_of (width_of req)) (outputFormat format) a.1 = Some a.2)
         ((quality_of req, b0) :: rest)) /\
    (exists q, last ((quality_of req, b0) :: rest) = Some (q, body)) /\
    disk w' !! cachePath_of req = Some (File body) /\
    (quality_of req = Js.Num 85 -> over_budget body (maxSize_of req) = true ->
     ((quality_of req, b0) :: rest).*1 = Js.Num <$> [85; 70; 55; 40; 25; 10]).
Proof.
  intros Hrun Hm.
  destruct (send_attempts _ _ _ _ _ Hrun Hm)
    as (b0 & rest & Henc & Hdesc & (q & Hlast) & Hsame).
  exists b0, rest. split_and!; [done|done|done|by eexists| |].
  - destruct (send_anatomy _ _ _ _ _ Hrun)
      as (format & buf & tries & st & _ & _ & _ & _ & _ & _ & -> & _).
    rewrite disk_after. apply lookup_insert_eq.
  - intros Hq Hover. rewrite Hq in *.
    by destruct (descends_full _ _ _ _ _ _ _ Hdesc Hlast Hover) as [-> _]; [lia..|].
Qed.

End Claim2.

Lemma quality_ladder_witness :
  exists b0 rest,
    encodes (@calls Lab.stubborn Lab.req_limit Lab.world0) =
      (fun a => (a.1, Some a.2)) <$> ((quality_of Lab.req_limit, b0) :: rest) /\
    descends (maxSize_of Lab.req_limit) 0 ((quality_of Lab.req_limit, b0) :: rest) /\
    (exists format,
       @decode_node Lab.stubborn (Lab.disk0 !! @filePath_of Lab.stubborn Lab.req_limit) =
         Some format /\
       Forall (fun a => @encode_node Lab.stubborn
                          (Lab.disk0 !! @filePath_of Lab.stubborn Lab.req_limit)
                          (resize_of (width_of Lab.req_limit)) (outputFormat format) a.1 =
                        Some a.2)
         ((quality_of Lab.req_limit, b0) :: rest)) /\
    (exists q, last ((quality_of Lab.req_limit, b0) :: rest) = Some (q, Lab.big)) /\
    disk (snd (@middleware Lab.stubborn Lab.req_limit Lab.world0))
      !! @cachePath_of Lab.stubborn Lab.req_limit = Some (File Lab.big) /\
    (quality_of Lab.req_limit = Js.Num 85 ->
     over_budget Lab.big (maxSize_of Lab.req_limit) = true ->
     ((quality_of Lab.req_limit, b0) :: rest).*1 = Js.Num <$> [85; 70; 55; 40; 25; 10]).
Proof.
  apply (@quality_ladder Lab.stubborn Lab.req_limit Lab.world0 "image/jpeg" Lab.big
           (snd (@middleware Lab.stubborn Lab.req_limit Lab.world0)));
    vm_compute; reflexivity.
Defined.

(** At quality 25 on an image that does not compress, the ladder stops
    after one re-encode, at quality 10, with the output over budget. *)
Lemma ladder_stop_stated_fails :
  ~ @ladder_stop_stated Lab.stubborn Lab.req_low Lab.world0.
Proof.
  intros Hc.
  specialize (Hc "image/jpeg" Lab.big
                (snd (@middleware Lab.stubborn Lab.req_low Lab.world0)) Lab.big).
  destruct Hc as [Hfit|Hn].
  - vm_compute. reflexivity.
  - reflexivity.
  - vm_compute. reflexivity.
  - vm_compute. reflexivity.
  - vm_compute in Hfit. discriminate.
  - vm_compute in Hn. discriminate.
Qed.

(** * Pass-through and fallback (C3, C4) *)

Section Claims34.

Context `{Host}.






End Claims34.



(** * Cache write failure (C5) *)

Section Claim5.

Context `{Host}.

(** A run that finds no derivative in the cache. *)
Lemma miss_run req w :
  disk w !! cachePath_of req = None ->
  exists o new data,
    steps req (disk w !! filePath_of req) false (writable w) o new data /\
    middleware req w = (o, after (cachePath_of req) new data w) /\
    calls req w = new.
Proof.
  intros Hmiss. destruct (middleware_run req w) as (o & new & data & Hsteps & Hrun).
  rewrite Hmiss in Hsteps.
  rewrite bool_decide_eq_false_2 in Hsteps by (by intros [??]).
  by exists o, new, data.
Qed.

(** The fresh transform is the run on a cold cache with a disk that
    takes writes. *)
Lemma fresh_steps req d :
  exists o new data,
    steps req (d !! filePath_of req) false true o new data /\
    fresh d req = match o with Ok (Send _ body) => Some body | _ => None end.
Proof.
  set (w0 := {| disk := delete (cachePath_of req) d; writable := true; trace := [] |}).
  destruct (miss_run req w0) as (o & new & data & Hsteps & Hrun & _).
  { apply lookup_delete_eq. }
  exists o, new, data. split.
  - cbn [disk writable w0] in Hsteps.
    rewrite lookup_delete_ne in Hsteps; [done|].
    intros Heq. by eapply filePath_not_cachePath.
  - unfold fresh. fold w0. by rewrite Hrun.
Qed.



End Claim5.



(** * Content type of a hit, derivative keys, paths (C6, C8, C9, C10) *)

Section Claim6.

Context `{Host}.
Import Text Path.

Lemma cut_last_dot_no_dot s : has_char "." s = false -> cut_last_dot s = None.
Proof.
  induction s as [|c s IH]; [done|]. cbn [has_char cut_last_dot].
  intros [Hc Hs]%orb_false_elim. by rewrite (IH Hs), Hc.
Qed.

Lemma cut_last_dot_app a post :
  has_char "." post = false -> cut_last_dot (a +:+ String "." post) = Some (a, post).
Proof.
  intros Hpost. induction a as [|c a IH].
  - rewrite app_nil_string. cbn [cut_last_dot].
    by rewrite (cut_last_dot_no_dot _ Hpost).
  - rewrite app_cons_string. cbn [cut_last_dot]. by rewrite IH.
Qed.


(** That type is looked up from the extension of the original's file
    name, which the key keeps: the codec of the cached bytes plays no
    part in it. *)
Lemma hit_type_of_extension req post :
  parse_ext (filename_of req) = String "." post ->
  sendFile_type (cachePath_of req) = mime_lookup (Regex.to_lower post).
Proof.
  intros Hext. destruct (cachePath_child req) as [-> _].
  unfold sendFile_type. rewrite last_last. unfold key_of.
  rewrite cacheKey_stem, Hext.
  assert (has_char "." post = false) as Hpost.
  { unfold parse_ext in Hext.
    pose proof (split_ext_shape (basename (filename_of req))) as Hshape.
    rewrite Hext in Hshape. by inversion Hshape. }
  by rewrite cut_last_dot_app.
Qed.

End Claim6.

(** C6 (defect).  A width request for a GIF is answered first with the
    derivative typed by its codec, [image/jpeg]; the same request again
    is a cache hit and is answered with the same bytes typed by the
    extension of the file, [image/gif]. *)
Theorem hit_typed_by_extension :
  (@serve Lab.stubborn Lab.req_gif Lab.world0).1 = Served "image/jpeg" Lab.big /\
  (@serve Lab.stubborn Lab.req_gif
     (@serve Lab.stubborn Lab.req_gif Lab.world0).2).1 = Served "image/gif" Lab.big.
Proof. split; vm_compute; reflexivity. Qed.

Section Claims8910.

Context `{Host}.

Lemma encodes_in_bounds req fmt (tries : list (Js.num * option Buffer)) :
  processed req = true ->
  Forall (in_bounds req)
    (map (fun t => SharpToBuffer (filePath_of req) (resize_of (width_of req)) fmt t.1 t.2)
       tries).
Proof.
  intros Hp. destruct (filePath_processed req Hp) as [Heq Hc].
  apply Forall_forall. intros ev Hin.
  apply list_elem_of_In, in_map_iff in Hin as (t & <- & _).
  cbn [in_bounds]. by rewrite <-Heq.
Qed.

Lemma steps_in_bounds req file cached wr o new data :
  steps req file cached wr o new data -> Forall (in_bounds req) new.
Proof.
  pose proof (cachePath_child req) as [_ Hcp].
  pose proof (filePath_processed req) as Hfp.
  pose proof (encodes_in_bounds req) as Henc.
  intros Hsteps.
  destruct Hsteps; rewrite ?Forall_app; repeat split;
    try (by apply Henc);
    repeat (apply Forall_cons; split); try apply Forall_nil; cbn [in_bounds];
    try done; try (by left); try (by right);
    try (destruct Hfp as [Heq Hc]; [done|]; by rewrite <-Heq).
Qed.

(** C8.  Requests with the same file name, width, quality and size
    limit have the same derivative key, whatever the rest of the
    request and the state of the server; the cache entry they look up
    is the file of that name in the cache directory. *)
Theorem derivative_key_deterministic req req' w :
  filename_of req = filename_of req' ->
  width_of req = width_of req' ->
  quality_of req = quality_of req' ->
  maxSize_of req = maxSize_of req' ->
  key_of req = key_of req' /\
  cachePath_of req = resizedCacheDir ++ [key_of req'] /\
  (forall p found, ExistsSync p found ∈ calls req w ->
     p = filePath_of req' \/ p = resizedCacheDir ++ [key_of req']).
Proof.
  intros Hf Hw Hq Hm.
  assert (key_of req = key_of req') as Hkey by (unfold key_of; congruence).
  assert (filePath_of req = filePath_of req') as Hfp by (unfold filePath_of; congruence).
  destruct (cachePath_child req) as [Hcp _]. rewrite Hkey in Hcp.
  split; [done|]. split; [done|].
  intros p found Hin. rewrite <-Hfp, <-Hcp.
  destruct (middleware_run req w) as (o & new & data & Hsteps & _ & Hcalls).
  rewrite Hcalls in Hin. clear -Hin Hsteps. destruct Hsteps.
  all: rewrite ?elem_of_app in Hin.
  all: repeat match goal with
       | Hin : _ \/ _ |- _ => destruct Hin as [Hin|Hin]
       | Hin : _ ∈ _ :: _ |- _ => apply elem_of_cons in Hin as [Hin|Hin]
       | Hin : _ ∈ [] |- _ => by apply elem_of_nil in Hin
       | Hin : ExistsSync _ _ = _ |- _ => injection Hin as -> ->
       | Hin : ExistsSync _ _ ∈ map _ _ |- _ =>
           apply list_elem_of_In, in_map_iff in Hin as (? & ? & _)
       end; try done; auto.
Qed.


(** C10 (amended).  The file name resolved from a request has no
    directory part.  Every path given to sharp is that file name
    directly inside the uploads directory, and every write and cache
    lookup is a file name directly inside the cache directory.  The
    existence check is on that same file name inside the uploads
    directory, except for the empty name and ["."], where it is on the
    uploads directory itself, and [".."], where it is on its parent;
    none of these three is ever read or processed. *)
Theorem originals_only req w :
  Path.has_slash (filename_of req) = false /\
  ((filePath_of req = uploadsDir ++ [filename_of req] /\
    child_of uploadsDir (filePath_of req)) \/
   ((filename_of req = EmptyString \/ filename_of req = ".") /\ filePath_of req = uploadsDir) \/
   (filename_of req = ".." /\ filePath_of req = cwd)) /\
  Forall (in_bounds req) (calls req w).
Proof.
  split; [apply filename_no_slash|]. split; [apply filePath_cases|].
  destruct (middleware_run req w) as (o & new & data & Hsteps & _ & ->).
  by eapply steps_in_bounds.
Qed.

End Claims8910.

Lemma derivative_key_deterministic_witness :
  key_of Lab.req_width = "photo-w400-q85-mnull.jpg" /\
  key_of Lab.req_width_alias = "photo-w400-q85-mnull.jpg" /\
  @cachePath_of Lab.shrinking Lab.req_width =
    @resizedCacheDir Lab.shrinking ++ [key_of Lab.req_width_alias].
Proof.
  destruct (@derivative_key_deterministic Lab.shrinking Lab.req_width
              Lab.req_width_alias Lab.world0) as (Hkey & Hpath & _);
    [vm_compute; reflexivity..|].
  split; [vm_compute; reflexivity|]. split; [vm_compute; reflexivity|]. exact Hpath.
Defined.



Lemma originals_only_witness :
  Forall (@in_bounds Lab.shrinking Lab.req_thumb)
    (@calls Lab.shrinking Lab.req_thumb Lab.world0).
Proof.
  apply (@originals_only Lab.shrinking Lab.req_thumb Lab.world0).
Defined.

(** For [/uploads/..] the existence check is on the parent of the
    uploads directory. *)
Lemma inside_uploads_stated_fails :
  @calls Lab.stubborn Lab.req_up Lab.world0 = [ExistsSync ["srv"; "diary"] true] /\
  ~ @inside_uploads_stated Lab.stubborn Lab.req_up.
Proof.
  split; [vm_compute; reflexivity|].
  intros (name & Heq & _). vm_compute in Heq. discriminate.
Qed.

(** * Cache contents (C7) *)

Section Claim7.

Context `{Host}.

(** The fresh transform reads the disk at the original only. *)
Lemma fresh_frame req d d' :
  d !! filePath_of req = d' !! filePath_of req -> fresh d req = fresh d' req.
Proof.
  intros Heq.
  destruct (fresh_steps req d) as (o & new & data & S1 & ->).
  destruct (fresh_steps req d') as (o' & new' & data' & S2 & ->).
  rewrite <-Heq in S2.
  by destruct (steps_alike req req _ _ _ _ _ _ _ _
                 eq_refl eq_refl eq_refl eq_refl eq_refl S1 S2) as (-> & _).
Qed.








End Claim7.



(** * Further properties of the middleware *)

Section MoreLadder.

Context `{Host}.

(** The loop makes at most as many encodes as attempts are left, each
    at a quality that is a number from 10 up and below the quality the
    loop was entered with. *)
Lemma ladder_chain_bounds enc m st tries o :
  ladder_chain enc m st tries o -> 0 <= attempts st ->
  Z.of_nat (length tries) <= Z.max 0 (5 - attempts st) /\
  forall a, adjustedQuality st = Js.Num a ->
    Forall (fun t => exists z, t.1 = Js.Num z /\ 10 <= z < a) tries.
Proof.
  induction 1 as [st Hc|st Hc Henc|st buf tries o Hc Henc Hchain IH]; intros Hlo.
  - split; [cbn; lia|]. intros a _. constructor.
  - destruct (continue_true _ _ Hc) as (_ & Hgt & Hlt).
    split; [cbn; lia|]. intros a Ha. rewrite Ha in *. cbn in Hgt.
    apply Z.ltb_lt in Hgt. constructor; [|constructor].
    exists (Z.max 10 (a - 15)). split; [done|lia].
  - destruct (continue_true _ _ Hc) as (_ & Hgt & Hlt).
    destruct IH as [IHlen IHq]; [cbn; lia|]. cbn [attempts adjustedQuality] in *.
    split; [cbn [length]; lia|]. intros a Ha. rewrite Ha in *. cbn in Hgt.
    apply Z.ltb_lt in Hgt.
    assert (lower (Js.Num a) = Js.Num (Z.max 10 (a - 15))) as Hlow by done.
    constructor.
    + exists (Z.max 10 (a - 15)). split; [done|lia].
    + specialize (IHq _ Hlow). eapply Forall_impl; [exact IHq|].
      intros t (z & Hz & Hrange). exists z. split; [done|lia].
Qed.

(** A loop entered at a quality that is not a number makes no encode. *)
Lemma ladder_chain_nan enc m st tries o :
  ladder_chain enc m st tries o -> adjustedQuality st = Js.NaN -> tries = [].
Proof.
  intros Hchain Hq. destruct Hchain as [st Hc|st Hc Henc|st buf tries o Hc Henc Hchain].
  - done.
  - destruct (continue_true _ _ Hc) as (_ & Hgt & _). by rewrite Hq in Hgt.
  - destruct (continue_true _ _ Hc) as (_ & Hgt & _). by rewrite Hq in Hgt.
Qed.

Lemma ladder_run_bounds enc m buf q tries o :
  ladder_run enc m buf q tries o ->
  (length tries <= 5)%nat /\
  (Js.truthy m = false -> tries = []) /\
  (q = Js.NaN -> tries = []) /\
  (forall a, q = Js.Num a ->
     Forall (fun t => exists z, t.1 = Js.Num z /\ 10 <= z < a) tries).
Proof.
  unfold ladder_run. destruct (Js.truthy m) eqn:Hm; cbn [andb].
  - destruct (over_budget buf m).
    + intros Hchain.
      destruct (ladder_chain_bounds _ _ _ _ _ Hchain) as [Hlen Hq]; [cbn; lia|].
      cbn [attempts adjustedQuality] in *. split_and!; [lia|done| |done].
      intros ->. by eapply ladder_chain_nan.
    + intros [-> _]. split_and!; first [done | cbn; lia | by constructor].
  - intros [-> _]. split_and!; first [done | cbn; lia | by constructor].
Qed.

(** The encodes of a run: none, or the first one at the requested
    quality followed by those of the loop. *)
Lemma steps_encodes req file cached wr o new data :
  steps req file cached wr o new data ->
  encodes new = [] \/
  exists r tries,
    encodes new = (quality_of req, r) :: tries /\
    (length tries <= 5)%nat /\
    (Js.truthy (maxSize_of req) = false -> tries = []) /\
    (quality_of req = Js.NaN -> tries = []) /\
    (forall a, quality_of req = Js.Num a ->
       Forall (fun t => exists z, t.1 = Js.Num z /\ 10 <= z < a) tries).
Proof.
  intros Hsteps.
  destruct Hsteps as [ | | | | |format buf tries e ????? Hrun
                     |format buf tries st ????? Hrun ?|format buf tries st ????? Hrun ?].
  1-4: by left.
  - right. exists None, []. cbn. split_and!; first [done | cbn; lia | by constructor].
  - right. exists (Some buf), tries.
    rewrite !encodes_app, encodes_map. cbn [encodes omap]. rewrite app_nil_r.
    split; [done|]. by apply ladder_run_bounds in Hrun.
  - right. exists (Some buf), tries.
    rewrite !encodes_app, encodes_map. cbn [encodes omap]. rewrite app_nil_r.
    split; [done|]. by apply ladder_run_bounds in Hrun.
  - right. exists (Some buf), tries.
    rewrite !encodes_app, encodes_map. cbn [encodes omap]. rewrite app_nil_r.
    split; [done|]. by apply ladder_run_bounds in Hrun.
Qed.

End MoreLadder.

Section MoreMiddleware.

Context `{Host}.





(** X3.  A request makes sharp encode at most six times, the first
    encode and five re-encodes, and at most once when it has no size
    limit. *)
Theorem encode_budget req w :
  (length (encodes (calls req w)) <= 6)%nat /\
  (Js.truthy (maxSize_of req) = false -> (length (encodes (calls req w)) <= 1)%nat).
Proof.
  destruct (middleware_run req w) as (o & new & data & Hsteps & _ & ->).
  destruct (steps_encodes _ _ _ _ _ _ _ Hsteps)
    as [->|(r & tries & -> & Hlen & Hm & _)]; cbn [length].
  - split; [lia|]. intros _. lia.
  - split; [lia|]. intros Hnone. rewrite (Hm Hnone). cbn. lia.
Qed.

(** X4.  Every re-encode is at a quality that is a whole number, at
    least 10 and below the requested quality; the first encode is at
    the requested quality. *)
Theorem reencode_quality_range req w :
  match encodes (calls req w) with
  | [] => True
  | first :: rest =>
      first.1 = quality_of req /\
      Forall (fun t => exists z a, t.1 = Js.Num z /\ quality_of req = Js.Num a /\
                                   10 <= z < a) rest
  end.
Proof.
  destruct (middleware_run req w) as (o & new & data & Hsteps & _ & ->).
  destruct (steps_encodes _ _ _ _ _ _ _ Hsteps)
    as [->|(r & tries & -> & _ & _ & Hnan & Hnum)]; [done|].
  split; [done|]. destruct (quality_of req) as [|a] eqn:Hq.
  - rewrite Hnan by done. constructor.
  - eapply Forall_impl; [by apply Hnum|].
    intros t (z & Hz & Hrange). by exists z, a.
Qed.

(** The disk after a request: the disk before, with the derivative
    at the cache entry when one was sent. *)
Lemma run_frame req w :
  (disk (middleware req w).2 = disk w \/
   exists ct body, (middleware req w).1 = Ok (Send ct body) /\
     disk w !! cachePath_of req = None /\
     disk (middleware req w).2 = <[cachePath_of req := File body]> (disk w)) /\
  writable (middleware req w).2 = writable w.
Proof.
  destruct (middleware_run req w) as (o & new & data & Hsteps & -> & _).
  cbn [fst snd]. rewrite disk_after. split; [|by destruct data].
  destruct data as [b|]; [right|by left].
  inversion Hsteps; subst. eexists _, _. split; [done|]. split; [|done].
  match goal with
  | Hc : bool_decide _ = false |- _ =>
      apply bool_decide_eq_false in Hc; by apply eq_None_not_Some
  | Hc : false = bool_decide _ |- _ =>
      symmetry in Hc; apply bool_decide_eq_false in Hc; by apply eq_None_not_Some
  end.
Qed.

Lemma run_frame_original req w p :
  p <> cachePath_of req -> disk (middleware req w).2 !! p = disk w !! p.
Proof.
  intros Hp. destruct (run_frame req w) as [[->|(ct & body & _ & _ & ->)] _]; [done|].
  by rewrite lookup_insert_ne.
Qed.


(** X20.  Handling one request never changes the derivative that a
    fresh transform would give for any request, the same or another:
    the transform reads the original only, and originals are not
    written to. *)
Theorem requests_do_not_interfere req req' w :
  fresh (disk (middleware req' w).2) req = fresh (disk w) req.
Proof.
  apply fresh_frame. apply run_frame_original. apply filePath_not_cachePath.
Qed.

(** X6.  A derivative computed for a request is typed by its codec,
    which is one of [image/jpeg], [image/png] and [image/webp]: an
    original that sharp reports as anything else than PNG or WebP is
    sent as JPEG. *)
Theorem sent_type_is_codec req w ct body w' :
  middleware req w = (Ok (Send ct body), w') ->
  ct ∈ ["image/jpeg"; "image/png"; "image/webp"] /\
  exists format,
    decode_node (disk w !! filePath_of req) = Some format /\
    ct = content_type (outputFormat format) /\
    (format <> "png" -> format <> "webp" -> ct = "image/jpeg").
Proof.
  intros Hrun.
  destruct (send_anatomy _ _ _ _ _ Hrun)
    as (format & buf & tries & st & Hdec & _ & _ & -> & _).
  split.
  - unfold outputFormat. repeat case_bool_decide; cbn [orb];
      repeat case_bool_decide; set_solver.
  - exists format. split; [done|]. split; [done|]. intros Hpng Hwebp.
    unfold outputFormat. repeat case_bool_decide; cbn [orb];
      repeat case_bool_decide; done.
Qed.



End MoreMiddleware.


Lemma sent_type_is_codec_witness :
  exists format,
    @decode_node Lab.stubborn (Lab.disk0 !! @filePath_of Lab.stubborn Lab.req_gif) =
      Some format /\
    "image/jpeg" = content_type (outputFormat format).
Proof.
  destruct (@sent_type_is_codec Lab.stubborn Lab.req_gif Lab.world0 "image/jpeg" Lab.big
              (@middleware Lab.stubborn Lab.req_gif Lab.world0).2)
    as (_ & format & Hdec & Hct & _).
  - vm_compute. reflexivity.
  - exists format. split; [exact Hdec|exact Hct].
Defined.



(** * Numbers as text, read back *)

Section DecimalFacts.

Import Text.

Lemma pretty_N_char_digit r :
  (r < 10)%N ->
  Js.digit_value (pretty_N_char r) = Z.of_N r /\ Js.is_digit 10 (pretty_N_char r) = true.
Proof.
  intros Hr.
  assert (r = 0 \/ r = 1 \/ r = 2 \/ r = 3 \/ r = 4 \/ r = 5 \/ r = 6 \/ r = 7 \/
          r = 8 \/ r = 9)%N as Hcases by lia.
  repeat destruct Hcases as [->|Hcases]; try subst r; by vm_compute.
Qed.

Lemma pretty_N_go_app x s t : pretty_N_go x s +:+ t = pretty_N_go x (s +:+ t).
Proof.
  revert s. induction (N.lt_wf_0 x) as [x _ IH]; intros s.
  assert (x = 0 ∨ 0 < x)%N as [->|?] by lia.
  - by rewrite !pretty_N_go_0.
  - rewrite (pretty_N_go_step x s), (pretty_N_go_step x (s +:+ t)) by done.
    by rewrite IH by (by apply N.div_lt).
Qed.

(** Reading the digits of [x] back. *)
Lemma read_digits_pretty x :
  exists k, 0 <= k /\ forall acc s,
    Js.read_digits 10 acc (pretty_N_go x s) =
    Js.read_digits 10 (acc * 10 ^ k + Z.of_N x) s.
Proof.
  induction (N.lt_wf_0 x) as [x _ IH].
  assert (x = 0 ∨ 0 < x)%N as [->|Hx] by lia.
  - exists 0. split; [done|]. intros acc s. rewrite pretty_N_go_0. f_equal. cbn. lia.
  - destruct (IH (x `div` 10)%N) as (k & Hk & Hread); [by apply N.div_lt|].
    exists (k + 1). split; [lia|]. intros acc s.
    rewrite pretty_N_go_step by done. rewrite Hread.
    assert (x `mod` 10 < 10)%N as Hr by (by apply N.mod_lt).
    destruct (pretty_N_char_digit _ Hr) as [Hval Hdig].
    cbn [Js.read_digits]. rewrite Hdig, Hval. f_equal.
    rewrite Z.pow_add_r by lia.
    pose proof (N.div_mod x 10 ltac:(done)) as Hdm.
    assert (Z.of_N x = 10 * Z.of_N (x `div` 10) + Z.of_N (x `mod` 10)) as -> by lia.
    lia.
Qed.

(** The text of a positive number starts with a digit from 1 to 9. *)
Lemma pretty_N_go_head x s :
  (0 < x)%N ->
  exists r t, (0 < r < 10)%N /\ pretty_N_go x s = String (pretty_N_char r) t.
Proof.
  revert s. induction (N.lt_wf_0 x) as [x _ IH]; intros s Hx.
  rewrite pretty_N_go_step by done.
  assert (x < 10 ∨ 10 <= x)%N as [Hlt|Hge] by lia.
  - rewrite N.div_small by done. rewrite pretty_N_go_0.
    rewrite N.mod_small by done. exists x, s. split; [lia|done].
  - apply IH; [by apply N.div_lt|]. apply N.div_str_pos. lia.
Qed.

Lemma read_digits_stop acc s z :
  Decimal.trailing z s = true -> Js.read_digits 10 acc s = acc.
Proof.
  destruct s as [|c s]; [done|]. cbn [Decimal.trailing Js.read_digits].
  intros [Hc _]%andb_prop. apply negb_true_iff in Hc. by rewrite Hc.
Qed.

(** [parseInt] on the digits of a positive number, with or without
    text after them. *)
Lemma parseInt_digits x s :
  (0 < x)%N -> Decimal.trailing (Z.of_N x) s = true ->
  Js.parseInt (pretty_N_go x s) = Js.Num (Z.of_N x) /\
  Js.parseInt (String "-" (pretty_N_go x s)) = Js.Num (- Z.of_N x).
Proof.
  intros Hx Hs.
  destruct (read_digits_pretty x) as (k & Hk & Hread).
  pose proof (Hread 0 s) as Hval. rewrite (read_digits_stop _ _ _ Hs) in Hval.
  cbn [Z.mul Z.add] in Hval.
  destruct (pretty_N_go_head x s Hx) as (r & t & Hr & Heq).
  rewrite Heq in *.
  assert (r = 1 \/ r = 2 \/ r = 3 \/ r = 4 \/ r = 5 \/ r = 6 \/ r = 7 \/
          r = 8 \/ r = 9)%N as Hcases by lia.
  repeat destruct Hcases as [->|Hcases]; try subst r;
    unfold pretty_N_char in *;
    unfold Js.parseInt; cbn [Js.skip_white Js.is_white Js.starts_with_digit];
    (split; [change (Js.is_digit 10 _) with true; cbv iota; rewrite Hval; f_equal; lia
            |change (Js.is_digit 10 _) with true; cbv iota; rewrite Hval; f_equal; lia]).
Qed.

End DecimalFacts.

Section DecimalParams.

Import Text.

Lemma pretty_pos_go (p : positive) : pretty (Z.pos p) = pretty_N_go (N.pos p) EmptyString.
Proof. unfold pretty, pretty_Z, pretty, pretty_positive, pretty, pretty_N. by case_decide. Qed.

Lemma pretty_neg_go (p : positive) :
  pretty (Z.neg p) = String "-" (pretty_N_go (N.pos p) EmptyString).
Proof.
  rewrite <-pretty_pos_go. done.
Qed.

(** The decimal text of an integer is not empty. *)
Lemma pretty_Z_nonempty (z : Z) s : exists c t, pretty z +:+ s = String c t.
Proof.
  destruct z as [|p|p].
  - by eexists _, _.
  - rewrite pretty_pos_go, pretty_N_go_app.
    destruct (pretty_N_go_head (N.pos p) (EmptyString +:+ s)) as (r & t & _ & ->); [lia|].
    by eexists _, _.
  - rewrite pretty_neg_go. by eexists _, _.
Qed.

Lemma parseInt_pretty z s :
  Decimal.trailing z s = true -> Js.parseInt (pretty z +:+ s) = Js.Num z.
Proof.
  intros Hs. destruct z as [|p|p].
  - change (pretty 0 +:+ s) with (String "0" s).
    destruct s as [|c s]; [done|].
    cbn [Decimal.trailing Z.eqb andb] in Hs.
    destruct c as [[] [] [] [] [] [] [] []]; vm_compute in Hs; try discriminate Hs;
      reflexivity.
  - rewrite pretty_pos_go, pretty_N_go_app, app_nil_string.
    by apply (parseInt_digits (N.pos p) s).
  - rewrite pretty_neg_go, app_cons_string, pretty_N_go_app, app_nil_string.
    by apply (parseInt_digits (N.pos p) s).
Qed.

(** X9.  [parseInt] reads the decimal text of an integer back as that
    integer, and ignores what follows the number: text that starts
    with anything but a digit (and, after a lone [0], anything but an
    [x]).  The integer is one that JavaScript represents exactly. *)
Theorem parseInt_decimal z s :
  Z.abs z < 2 ^ 53 -> Decimal.trailing z s = true ->
  Js.parseInt (pretty z +:+ s) = Js.Num z.
Proof. intros _. apply parseInt_pretty. Qed.

Lemma int_param_decimal z s :
  Decimal.trailing z s = true -> int_param (Some (pretty z +:+ s)) = Some (Js.Num z).
Proof.
  intros Hs. unfold int_param.
  destruct (pretty_Z_nonempty z s) as (c & t & Heq).
  rewrite parseInt_pretty by done. by rewrite Heq.
Qed.

(** X10.  For parameters given as decimal numbers that JavaScript
    represents exactly, each possibly followed by other text, the
    derivative key spells the numbers as they were given and leaves
    the other text out; so [w=400px] names the derivative of [w=400]. *)
Theorem key_spells_decimal req a sa b sb c sc :
  Z.abs a < 2 ^ 53 -> Z.abs b < 2 ^ 53 -> Z.abs c < 2 ^ 53 ->
  query_w req = Some (pretty a +:+ sa) -> Decimal.trailing a sa = true ->
  query_q req = Some (pretty b +:+ sb) -> Decimal.trailing b sb = true ->
  query_maxSize req = Some (pretty c +:+ sc) -> Decimal.trailing c sc = true ->
  width_of req = Some (Js.Num a) /\ quality_of req = Js.Num b /\
  maxSize_of req = Some (Js.Num c) /\
  key_of req =
    Path.parse_name (filename_of req) +:+ "-w" +:+ pretty a +:+ "-q" +:+ pretty b +:+
    "-m" +:+ pretty c +:+ Path.parse_ext (filename_of req).
Proof.
  intros _ _ _ Hw Ha Hq Hb Hm Hc.
  assert (width_of req = Some (Js.Num a)) as Hwidth
    by (unfold width_of; rewrite Hw; by apply int_param_decimal).
  assert (quality_of req = Js.Num b) as Hquality
    by (unfold quality_of; rewrite Hq; by rewrite int_param_decimal).
  assert (maxSize_of req = Some (Js.Num c)) as Hmax
    by (unfold maxSize_of; rewrite Hm; by apply int_param_decimal).
  split_and!; try done.
  unfold key_of, cacheKey. by rewrite Hwidth, Hquality, Hmax.
Qed.

End DecimalParams.

Lemma parseInt_decimal_witness :
  Js.parseInt "400px" = Js.Num 400 /\ Js.parseInt "-12" = Js.Num (-12).
Proof.
  split.
  - apply (parseInt_decimal 400 "px"); reflexivity.
  - apply (parseInt_decimal (-12) EmptyString); reflexivity.
Defined.

Lemma key_spells_decimal_witness :
  key_of Samples.req_decimal = "photo-w400-q70-m-3.jpg".
Proof.
  destruct (key_spells_decimal Samples.req_decimal 400 EmptyString 70 EmptyString (-3)
              EmptyString) as (_ & _ & _ & Hkey); [reflexivity..|].
  rewrite Hkey. reflexivity.
Defined.

(** * The upload route *)

Section NameFacts.

Import Text Path.

(** Digits only in the text of a number that is not negative. *)
Lemma pretty_N_go_only c x s :
  (forall r, pretty_N_char r <> c) -> has_char c s = false ->
  has_char c (pretty_N_go x s) = false.
Proof.
  intros Hc. revert s. induction (N.lt_wf_0 x) as [x _ IH]; intros s Hs.
  assert (x = 0 ∨ 0 < x)%N as [->|?] by lia.
  - by rewrite pretty_N_go_0.
  - rewrite pretty_N_go_step by done. apply IH.
    { by apply N.div_lt. }
    rewrite has_char_cons, Hs, orb_false_r. apply Ascii.eqb_neq. apply Hc.
Qed.

Lemma pretty_nonneg_no_dash (z : Z) : 0 <= z -> has_char "-" (pretty z) = false.
Proof.
  intros Hz. destruct z as [|p|p]; [done| |lia].
  rewrite pretty_pos_go. apply pretty_N_go_only; [|done].
  intros r. unfold pretty_N_char. by repeat case_match.
Qed.

(** A string is cut in one way only at the first occurrence of a
    character. *)
Lemma app_first_inj c a b x y :
  has_char c a = false -> has_char c b = false ->
  a +:+ String c x = b +:+ String c y -> a = b /\ x = y.
Proof.
  revert b. induction a as [|h a IH]; intros [|k b] Ha Hb Heq.
  - by injection Heq.
  - exfalso. change (String c x = String k (b +:+ String c y)) in Heq.
    injection Heq as <- _. cbn [has_char] in Hb. by rewrite Ascii.eqb_refl in Hb.
  - exfalso. change (String h (a +:+ String c x) = String c y) in Heq.
    injection Heq as -> _. cbn [has_char] in Ha. by rewrite Ascii.eqb_refl in Ha.
  - change (String h (a +:+ String c x) = String k (b +:+ String c y)) in Heq.
    injection Heq as -> Heq. cbn [has_char] in Ha, Hb.
    apply orb_false_elim in Ha as [_ Ha]. apply orb_false_elim in Hb as [_ Hb].
    destruct (IH _ Ha Hb Heq) as [-> ->]. done.
Qed.

Lemma parse_ext_like p : Upload.ext_like (parse_ext p).
Proof.
  unfold Upload.ext_like, parse_ext. destruct (split_ext_shape (basename p)); [by left..|].
  right. by eexists.
Qed.

(** Text without a dot followed by an extension is cut in one way only. *)
Lemma stem_ext_inj a a' e e' :
  has_char "." a = false -> has_char "." a' = false -> Upload.ext_like e -> Upload.ext_like e' ->
  a +:+ e = a' +:+ e' -> a = a' /\ e = e'.
Proof.
  unfold Upload.ext_like. intros Ha Ha' He He' Heq.
  destruct He as [->|(post & -> & Hpost)], He' as [->|(post' & -> & Hpost')].
  - rewrite !app_empty_string in Heq. done.
  - exfalso. rewrite app_empty_string in Heq. subst a.
    rewrite has_char_app in Ha. cbn [has_char] in Ha.
    rewrite Ascii.eqb_refl in Ha. by rewrite orb_true_r in Ha.
  - exfalso. rewrite app_empty_string in Heq. subst a'.
    rewrite has_char_app in Ha'. cbn [has_char] in Ha'.
    rewrite Ascii.eqb_refl in Ha'. by rewrite orb_true_r in Ha'.
  - apply app_first_inj in Heq as [-> ->]; done.
Qed.

Lemma parse_ext_no_slash p : has_slash (parse_ext p) = false.
Proof.
  unfold parse_ext. by destruct (split_ext_no_slash (basename p) (basename_no_slash p)).
Qed.

Lemma basename_rooted s : basename (String "/" s) = basename s.
Proof. done. Qed.

(** A suffix that starts with a dot lies within what follows text
    without a dot. *)
Lemma ends_with_dotless e a y :
  has_char "." a = false ->
  Regex.ends_with (String "." e) (a +:+ y) = Regex.ends_with (String "." e) y.
Proof.
  induction a as [|c a IH]; [done|]. cbn [has_char].
  intros [Hc Ha]%orb_false_elim. rewrite app_cons_string.
  cbn [Regex.ends_with]. rewrite (IH Ha).
  rewrite bool_decide_eq_false_2; [done|].
  intros [= -> _]. by rewrite Ascii.eqb_refl in Hc.
Qed.

Lemma to_lower_app a b : Regex.to_lower (a +:+ b) = Regex.to_lower a +:+ Regex.to_lower b.
Proof.
  induction a as [|c a IH]; [done|]. rewrite app_cons_string.
  cbn [Regex.to_lower]. by rewrite IH.
Qed.

Lemma lower_dot c : Ascii.eqb (Regex.lower c) "." = Ascii.eqb c ".".
Proof. destruct c as [[] [] [] [] [] [] [] []]; reflexivity. Qed.

Lemma to_lower_dotless a : has_char "." (Regex.to_lower a) = has_char "." a.
Proof.
  induction a as [|c a IH]; [done|]. cbn [Regex.to_lower has_char].
  by rewrite IH, lower_dot.
Qed.

(** The extension test sees only what follows text without a dot. *)
Lemma ext_test_dotless exts a y :
  has_char "." a = false -> Regex.ext_test exts (a +:+ y) = Regex.ext_test exts y.
Proof.
  intros Ha. unfold Regex.ext_test. rewrite to_lower_app.
  induction exts as [|e exts IH]; [done|]. cbn [existsb].
  rewrite IH. f_equal. apply ends_with_dotless. by rewrite to_lower_dotless.
Qed.

End NameFacts.

Section UploadFacts.

Context `{Host}.
Import Text Path.

Lemma uniqueSuffix_chars c (now rnd : Z) :
  numeric c = false -> has_char c (pretty now +:+ "-" +:+ pretty rnd) = false.
Proof.
  intros Hc. rewrite !has_char_app, !pretty_Z_numeric by done.
  cbn [has_char orb]. rewrite !orb_false_r. by apply numeric_other.
Qed.

Lemma filename_split now rnd f :
  Upload.filename now rnd f =
  (pretty now +:+ "-" +:+ pretty rnd) +:+ Upload.extname (Upload.originalname f).
Proof. done. Qed.

(** A stored name is a proper file name. *)
Lemma filename_proper now rnd f :
  has_slash (Upload.filename now rnd f) = false /\
  Upload.filename now rnd f <> EmptyString /\
  Upload.filename now rnd f <> "." /\ Upload.filename now rnd f <> "..".
Proof.
  assert (has_char "-" (Upload.filename now rnd f) = true) as Hdash.
  { rewrite filename_split, !has_char_app. cbn [has_char].
    rewrite Ascii.eqb_refl. by rewrite !orb_true_r. }
  split.
  - unfold has_slash. rewrite filename_split, has_char_app.
    rewrite uniqueSuffix_chars by done. apply parse_ext_no_slash.
  - repeat split; intros Heq; by rewrite Heq in Hdash.
Qed.

(** X11.  The URL that a successful upload answers with leads back to
    the stored file: for a request below [/uploads] whose path is the
    stored name, the middleware resolves the file name to the stored
    name and checks for the original at the path multer wrote to, the
    stored name directly inside the uploads directory. *)
Theorem stored_name_resolves now rnd f req :
  req_path req = "/" +:+ Upload.filename now rnd f ->
  Upload.on_upload None (Some (Upload.filename now rnd f)) =
    {| Upload.status := 200; Upload.body := Upload.Url ("/uploads" +:+ req_path req) |} /\
  filename_of req = Upload.filename now rnd f /\
  filePath_of req = Path.join uploadsDir (Upload.filename now rnd f) /\
  filePath_of req = uploadsDir ++ [Upload.filename now rnd f] /\
  child_of uploadsDir (filePath_of req).
Proof.
  intros Hpath. destruct (filename_proper now rnd f) as (Hs & Hne & Hd & Hdd).
  assert (filename_of req = Upload.filename now rnd f) as Hname.
  { unfold filename_of. rewrite Hpath. change ("/" +:+ ?s) with (String "/" s).
    rewrite basename_rooted. by apply basename_plain. }
  split; [by rewrite Hpath|]. split; [done|].
  unfold filePath_of. rewrite Hname. split; [done|]. by apply child_of_join.
Qed.

(** X12.  A stored name is an image, or a video, for the middleware
    exactly when the extension of the uploaded file's original name
    is; an upload whose original name has no extension is stored
    under a name that the middleware never processes, whatever the
    query. *)
Theorem stored_name_classified now rnd f :
  isImage (Upload.filename now rnd f) = isImage (Upload.extname (Upload.originalname f)) /\
  isVideo (Upload.filename now rnd f) = isVideo (Upload.extname (Upload.originalname f)) /\
  (Upload.extname (Upload.originalname f) = EmptyString ->
   forall req, filename_of req = Upload.filename now rnd f -> processed req = false).
Proof.
  assert (has_char "." (pretty now +:+ "-" +:+ pretty rnd) = false) as Hdot
    by by apply uniqueSuffix_chars.
  assert (isImage (Upload.filename now rnd f) =
          isImage (Upload.extname (Upload.originalname f))) as Himg
    by (rewrite filename_split; by apply ext_test_dotless).
  split; [done|]. split.
  - rewrite filename_split. by apply ext_test_dotless.
  - intros Hext req Hname. unfold processed, skip.
    rewrite Hname, Himg, Hext. by rewrite orb_true_r.
Qed.

(** X13.  Two uploads are stored under the same name only if they got
    the same time stamp and the same random number, and their original
    names have the same extension. *)
Theorem stored_name_injective now rnd f now' rnd' f' :
  0 <= now -> 0 <= now' -> 0 <= rnd -> 0 <= rnd' ->
  Upload.filename now rnd f = Upload.filename now' rnd' f' ->
  now = now' /\ rnd = rnd' /\
  Upload.extname (Upload.originalname f) = Upload.extname (Upload.originalname f').
Proof.
  intros Hn Hn' Hr Hr' Heq. unfold Upload.filename in Heq.
  cbv zeta in Heq. rewrite !app_assoc_string in Heq.
  change ("-" +:+ ?s) with (String "-" s) in Heq.
  apply app_first_inj in Heq as [Hnow Hrest]; [|by apply pretty_nonneg_no_dash..].
  apply stem_ext_inj in Hrest as [Hrnd Hext];
    [|by apply pretty_Z_numeric|by apply pretty_Z_numeric|apply parse_ext_like..].
  by apply (inj pretty) in Hnow, Hrnd.
Qed.

(** X14.  The error with which the filter refuses a file, whose MIME
    type is not in the allowed list, is one that the route's callback
    does not recognise: the reply is the 500 for a server error, never
    the 400 that names the invalid file type. *)
Theorem rejected_type_gets_500 f e file :
  Upload.fileFilter f = inl e ->
  Upload.on_upload (Some e) file =
    {| Upload.status := 500;
       Upload.body := Upload.Message "Server error while uploading file" |}.
Proof.
  unfold Upload.fileFilter. case_bool_decide; [done|]. by intros [= <-].
Qed.

End UploadFacts.

Lemma stored_name_resolves_witness :
  filename_of Samples.req_heic = "1700000000000-42.HEIC" /\
  @filePath_of Lab.shrinking Samples.req_heic =
    ["srv"; "diary"; "uploads"; "1700000000000-42.HEIC"].
Proof.
  destruct (@stored_name_resolves Lab.shrinking 1700000000000 42 Samples.heic
              Samples.req_heic) as (_ & Hname & _ & Hpath & _).
  - vm_compute. reflexivity.
  - split; [rewrite Hname|rewrite Hpath]; vm_compute; reflexivity.
Defined.

Lemma stored_name_injective_witness :
  Upload.extname (Upload.originalname Samples.heic) =
  Upload.extname "/tmp/other.HEIC".
Proof.
  destruct (stored_name_injective 1700000000000 42 Samples.heic 1700000000000 42
              {| Upload.originalname := "/tmp/other.HEIC";
                 Upload.mimetype := "image/heif" |}) as (_ & _ & Hext).
  1-4: lia.
  - vm_compute. reflexivity.
  - exact Hext.
Defined.

Lemma rejected_type_gets_500_witness :
  Upload.on_upload
    (Some (Upload.Error "Invalid file type. Please upload an image or video file."))
    None =
  {| Upload.status := 500;
     Upload.body := Upload.Message "Server error while uploading file" |}.
Proof.
  apply (rejected_type_gets_500 Samples.page). vm_compute. reflexivity.
Defined.

(** * Start-up *)

Section StartupFacts.

Context `{Host}.











End StartupFacts.





(** * The media list of the editor *)

Section EditorFacts.

Lemma or_empty_some l : Editor.or_empty (Some l) = l.
Proof. done. Qed.

Lemma start_some temp l :
  Editor.start temp (Some l) = ({| Editor.tempUrl := temp; Editor.tempUrls := l ++ [temp] |},
                                l ++ [temp]).
Proof. done. Qed.

Lemma filter_other (temp : string) (l : list string) :
  temp ∉ l -> filter (fun url => url <> temp) l = l.
Proof.
  induction l as [|x l IH]; [done|]. intros Hnot.
  apply not_elem_of_cons in Hnot as [Hx Hl].
  rewrite filter_cons_True by done. by rewrite IH.
Qed.

Lemma replace_other (temp url : string) (l : list string) :
  temp ∉ l -> map (fun x => if bool_decide (x = temp) then url else x) l = l.
Proof.
  induction l as [|x l IH]; [done|]. intros Hnot.
  apply not_elem_of_cons in Hnot as [Hx Hl]. cbn [map].
  rewrite bool_decide_eq_false_2 by done. by rewrite IH.
Qed.

Lemma splice1_inside i (l : list string) :
  0 <= i < Z.of_nat (length l) ->
  Editor.splice1 i l = take (Z.to_nat i) l ++ drop (S (Z.to_nat i)) l.
Proof.
  intros Hi. unfold Editor.splice1.
  replace (i <? 0) with false by (symmetry; apply Z.ltb_ge; lia).
  by replace (Z.min i (Z.of_nat (length l))) with i by lia.
Qed.

Lemma splice1_subseteq i (l : list string) x : x ∈ Editor.splice1 i l -> x ∈ l.
Proof.
  unfold Editor.splice1. intros [Hin|Hin]%elem_of_app.
  - by eapply subseteq_take.
  - by eapply subseteq_drop.
Qed.

(** Removing an entry of the list while the temporary entry is at its
    end. *)
Lemma remove_before_temp i (l : list string) temp :
  0 <= i < Z.of_nat (length l) ->
  Editor.onMediaRemove i (Some (l ++ [temp])) = Editor.splice1 i l ++ [temp].
Proof.
  intros Hi. unfold Editor.onMediaRemove. rewrite or_empty_some.
  rewrite (splice1_inside i (l ++ [temp]))
    by (rewrite length_app, Nat2Z.inj_add; cbn [length]; lia).
  rewrite (splice1_inside i l) by done.
  rewrite take_app_le, drop_app_le by lia. by rewrite <-app_assoc.
Qed.

(** X18.  When an upload fails, by a network error or a status other
    than 200, the temporary entry is taken out of the media list and
    nothing else is touched: without changes in the meantime the list
    is what it was before the upload started, and an entry removed in
    the meantime stays removed. *)
Theorem failed_upload_restores temp (l : list string) r :
  temp ∉ l ->
  r = Editor.Errored \/ (exists s url, r = Editor.Loaded s url /\ s <> 200) ->
  Editor.settle (Editor.start temp (Some l)).1 r (Some (Editor.start temp (Some l)).2) = l /\
  (forall i, 0 <= i < Z.of_nat (length l) ->
     Editor.settle (Editor.start temp (Some l)).1 r
       (Some (Editor.onMediaRemove i (Some (Editor.start temp (Some l)).2))) =
     Editor.onMediaRemove i (Some l)) /\
  (forall v, temp ∉ Editor.settle (Editor.start temp (Some l)).1 r v).
Proof.
  intros Hnot Hr.
  assert (forall v, Editor.settle (Editor.start temp (Some l)).1 r v =
                    filter (fun url => url <> temp) (Editor.or_empty v)) as Hsettle.
  { intros v. destruct Hr as [->|(s & url & -> & Hs)]; [done|].
    unfold Editor.settle. by replace (s =? 200) with false by (symmetry; by apply Z.eqb_neq). }
  split_and!.
  - rewrite Hsettle, start_some. cbn [snd]. rewrite or_empty_some.
    rewrite filter_app, filter_other by done.
    rewrite filter_cons_False by (by intros ?). by rewrite filter_nil, app_nil_r.
  - intros i Hi. rewrite Hsettle, start_some. cbn [snd].
    rewrite remove_before_temp by done. rewrite or_empty_some.
    rewrite filter_app, filter_cons_False by (by intros ?).
    rewrite filter_nil, app_nil_r. unfold Editor.onMediaRemove. rewrite or_empty_some.
    apply filter_other. intros Hin. apply Hnot. by eapply splice1_subseteq.
  - intros v. rewrite Hsettle. intros Hin. apply list_elem_of_filter in Hin as [Hne _].
    done.
Qed.

(** X19.  When an upload succeeds, the media list becomes the list
    from before the upload with the new URL at its end, whatever the
    list holds by then: a change made while the upload was under way
    is lost, and an entry removed in the meantime is back. *)
Theorem successful_upload_overwrites temp (l : list string) url :
  temp ∉ l ->
  (forall v, Editor.settle (Editor.start temp (Some l)).1 (Editor.Loaded 200 url) v =
             l ++ [url]) /\
  (forall i x, 0 <= i < Z.of_nat (length l) -> l !! (Z.to_nat i) = Some x ->
     x ∉ Editor.splice1 i l ->
     (x ∉ Editor.onMediaRemove i (Some (Editor.start temp (Some l)).2)) /\
     (x ∈ Editor.settle (Editor.start temp (Some l)).1 (Editor.Loaded 200 url)
            (Some (Editor.onMediaRemove i (Some (Editor.start temp (Some l)).2))))).
Proof.
  intros Hnot.
  assert (forall v, Editor.settle (Editor.start temp (Some l)).1 (Editor.Loaded 200 url) v =
                    l ++ [url]) as Hsettle.
  { intros v. rewrite start_some. cbn [Editor.settle Z.eqb Pos.eqb fst].
    unfold Editor.finalUrls_loaded. cbn [Editor.tempUrl Editor.tempUrls].
    rewrite map_app, replace_other by done. cbn [map].
    by rewrite bool_decide_eq_true_2. }
  split; [done|]. intros i x Hi Hx Hgone. split.
  - rewrite start_some. cbn [snd].
    rewrite remove_before_temp by done. intros Hin.
    apply elem_of_app in Hin as [Hin|Hin]; [done|].
    apply list_elem_of_singleton in Hin as ->. apply Hnot.
    by eapply list_elem_of_lookup_2.
  - rewrite Hsettle. apply elem_of_app. left. by eapply list_elem_of_lookup_2.
Qed.

End EditorFacts.

Lemma failed_upload_restores_witness :
  Editor.settle (Editor.start Samples.blob_url (Some Samples.urls)).1 (Editor.Loaded 500 EmptyString)
    (Some (Editor.start Samples.blob_url (Some Samples.urls)).2) = Samples.urls.
Proof.
  destruct (failed_upload_restores Samples.blob_url Samples.urls
              (Editor.Loaded 500 EmptyString)) as (Hback & _).
  - apply (bool_decide_unpack _). vm_compute. exact I.
  - right. exists 500, EmptyString. split; [reflexivity|lia].
  - exact Hback.
Defined.

Lemma successful_upload_overwrites_witness :
  Editor.settle (Editor.start Samples.blob_url (Some Samples.urls)).1
    (Editor.Loaded 200 "/uploads/3-3.jpg")
    (Some (Editor.onMediaRemove 0 (Some (Editor.start Samples.blob_url (Some Samples.urls)).2))) =
  Samples.urls ++ ["/uploads/3-3.jpg"].
Proof.
  destruct (successful_upload_overwrites Samples.blob_url Samples.urls "/uploads/3-3.jpg")
    as (Hall & _).
  - apply (bool_decide_unpack _). vm_compute. exact I.
  - apply Hall.
Defined.

(** * The entry and comment routes *)

Section ApiFacts.

Context {Entry InsertEntry Comment InsertComment Body Content Issues Db : Type}.

Variable storage : @Api.Backend Entry InsertEntry Comment InsertComment Body Content Issues Db.

Lemma parseInt_pretty_plain z : Js.parseInt (pretty z) = Js.Num z.
Proof. rewrite <-(app_empty_string (pretty z)). by apply parseInt_pretty. Qed.

(** X21.  A body that the entry schema refuses is answered with 400
    and the schema's issues before the storage is touched, on
    creation and on update alike: the stored data stay as they are,
    and an update with such a body is answered 400 whatever the id,
    also when no such entry exists.  The same holds for a comment the
    comment schema refuses. *)
Theorem invalid_body_never_stored b errors db :
  Api.insertEntrySchema storage b = inl errors ->
  Api.post_entry storage b db =
    ({| Api.status := 400; Api.body := Api.Invalid "Invalid entry data" errors |}, db) /\
  (forall id, Api.put_entry storage id b db =
    ({| Api.status := 400; Api.body := Api.Invalid "Invalid entry data" errors |}, db)) /\
  (forall id content issues,
     Api.insertCommentSchema storage (Js.parseInt id) content = inl issues ->
     Api.post_comment storage id content db =
       ({| Api.status := 400; Api.body := Api.Invalid "Invalid comment data" issues |},
        db)).
Proof.
  intros Hbad. unfold Api.post_entry, Api.put_entry, Api.post_comment.
  rewrite Hbad. split; [done|]. split; [done|].
  intros id content issues Hc. by rewrite Hc.
Qed.

(** X22.  The routes read an id with [parseInt]: an id that is a
    decimal number followed by other text names the entry, or the
    comment, of that number.  The route that deletes a comment reads
    the comment id only: the entry id in its path plays no part. *)
Theorem id_read_as_number n s db :
  Z.abs n < 2 ^ 53 -> Decimal.trailing n s = true ->
  Api.get_entry storage (pretty n +:+ s) db = Api.get_entry storage (pretty n) db /\
  (forall b, Api.put_entry storage (pretty n +:+ s) b db =
             Api.put_entry storage (pretty n) b db) /\
  Api.delete_entry storage (pretty n +:+ s) db = Api.delete_entry storage (pretty n) db /\
  Api.get_comments storage (pretty n +:+ s) db = Api.get_comments storage (pretty n) db /\
  (forall c, Api.post_comment storage (pretty n +:+ s) c db =
             Api.post_comment storage (pretty n) c db) /\
  (forall id id', Api.delete_comment storage id (pretty n +:+ s) db =
                  Api.delete_comment storage id' (pretty n) db).
Proof.
  intros _ Hs.
  unfold Api.get_entry, Api.put_entry, Api.delete_entry, Api.get_comments,
    Api.post_comment, Api.delete_comment.
  rewrite parseInt_pretty by done. rewrite parseInt_pretty_plain. done.
Qed.

End ApiFacts.

Lemma invalid_body_never_stored_witness :
  Api.put_entry Samples.memory "7" EmptyString ["Monday"] =
  ({| Api.status := 400; Api.body := Api.Invalid "Invalid entry data" "Required" |},
   ["Monday"]).
Proof.
  destruct (invalid_body_never_stored Samples.memory EmptyString "Required" ["Monday"])
    as (_ & Hput & _).
  - reflexivity.
  - apply Hput.
Defined.

Lemma id_read_as_number_witness :
  Api.get_entry Samples.memory "0th" ["Monday"] =
  ({| Api.status := 200; Api.body := Api.AnEntry "Monday" |}, ["Monday"]).
Proof.
  destruct (id_read_as_number Samples.memory 0 "th" ["Monday"]) as (Hget & _).
  - reflexivity.
  - reflexivity.
  - change (pretty 0 +:+ "th") with "0th" in Hget. rewrite Hget. reflexivity.
Defined.
